(** * TagInput: the tag-editing state machine of [src/components/ui/tag-input.tsx]

    The component keeps three pieces of React state ([inputText], [tags],
    [deletionIsPending]) and reports every change of the tag list to its host
    through [props.onValueChange].  This development embeds the three event
    handlers ([handleInputChange], [handleKeyDown], the per-tag [onDelete]) and
    the [isUpForDeletion] rendering flag, together with the JavaScript
    built-ins they call, and settles the properties stated about them. *)

From Stdlib Require Import Ascii String.
From Stdlib Require Import List NArith ZArith Bool Lia Arith.
Import ListNotations.

Set Implicit Arguments.
Local Open Scope N_scope.

(** ** JavaScript strings

    A JavaScript string is a sequence of UTF-16 code units.  The regular
    expression of the component has no [u] flag, so it works code unit by
    code unit, as [trim] does. *)

Definition jsstring := list N.

(** An ASCII literal of the source, as a JavaScript string. *)
Definition lit (s : string) : jsstring :=
  map N_of_ascii (list_ascii_of_string s).

Fixpoint jsstring_eqb (a b : jsstring) : bool :=
  match a, b with
  | [], [] => true
  | x :: a', y :: b' => (x =? y) && jsstring_eqb a' b'
  | _, _ => false
  end.

(** [WhiteSpace] and [LineTerminator] of ECMAScript: what [\s] matches and
    what [String.prototype.trim] strips. *)
Definition is_space (c : N) : bool :=
  ((9 <=? c) && (c <=? 13))            (* TAB LF VT FF CR *)
  || (c =? 32)                         (* SPACE *)
  || (c =? 160)                        (* NO-BREAK SPACE *)
  || (c =? 5760)                       (* U+1680 *)
  || ((8192 <=? c) && (c <=? 8202))    (* U+2000 .. U+200A *)
  || (c =? 8232) || (c =? 8233)        (* U+2028, U+2029 *)
  || (c =? 8239)                       (* U+202F *)
  || (c =? 8287)                       (* U+205F *)
  || (c =? 12288)                      (* U+3000 *)
  || (c =? 65279).                     (* U+FEFF *)

Definition comma : N := 44.
Definition semicolon : N := 59.

Fixpoint trimStart (s : jsstring) : jsstring :=
  match s with
  | c :: s' => if is_space c then trimStart s' else s
  | [] => []
  end.

Definition trimEnd (s : jsstring) : jsstring := rev (trimStart (rev s)).

(** [String.prototype.trim] *)
Definition trim (s : jsstring) : jsstring := trimEnd (trimStart s).

(** ** The regular expression [/([^\s,;]+)(,|;|\s)/g] *)

(** The character class [[^\s,;]] of the first group. *)
Definition tag_char (c : N) : bool :=
  negb (is_space c || (c =? comma) || (c =? semicolon)).

(** The alternation [(,|;|\s)] of the second group. *)
Definition delimiter (c : N) : bool :=
  (c =? comma) || (c =? semicolon) || is_space c.

(** Number of code units a greedy [[^\s,;]*] takes at the start of [s]. *)
Fixpoint greedy (s : jsstring) : nat :=
  match s with
  | c :: s' => if tag_char c then S (greedy s') else 0%nat
  | [] => 0%nat
  end.

(** The quantifier [+] backtracks from the greedy length [n] down to one code
    unit, asking each time for one delimiter right after the group.  A match
    gives the text of group 1 and what follows the whole match. *)
Fixpoint backtrack (n : nat) (s : jsstring) : option (jsstring * jsstring) :=
  match n with
  | O => None
  | S m =>
      match skipn n s with
      | d :: rest =>
          if delimiter d then Some (firstn n s, rest) else backtrack m s
      | [] => backtrack m s
      end
  end.

(** One attempt of the regular expression at the start of [s]. *)
Definition exec_at (s : jsstring) : option (jsstring * jsstring) :=
  backtrack (greedy s) s.

(** [text.replaceAll(re, callback)], where the callback pushes
    [tagText.trim()] on [newTags] and returns the empty string: the scan goes
    left to right; a match is replaced by the empty string and its group 1,
    trimmed, is pushed on [newTags]; where the expression does not match,
    the code unit is kept and the scan moves one position on.  The result
    is [(newTags, newText)].  Every round consumes at least one code unit,
    so [length text] rounds are enough. *)
Fixpoint replaceAll_loop (fuel : nat) (s : jsstring) : list jsstring * jsstring :=
  match fuel with
  | O => ([], s)
  | S fuel' =>
      match s with
      | [] => ([], [])
      | c :: s' =>
          match exec_at s with
          | Some (tagText, rest) =>
              let (newTags, newText) := replaceAll_loop fuel' rest in
              (trim tagText :: newTags, newText)
          | None =>
              let (newTags, newText) := replaceAll_loop fuel' s' in
              (newTags, c :: newText)
          end
      end
  end.

Definition replaceAll (text : jsstring) : list jsstring * jsstring :=
  replaceAll_loop (length text) text.

(** The same scan as a one-pass tokenizer: [run] is the tag text read since
    the last delimiter. It is used to reason about [replaceAll]. *)
Fixpoint tokenize (run : jsstring) (s : jsstring) : list jsstring * jsstring :=
  match s with
  | [] => ([], run)
  | c :: s' =>
      if tag_char c then tokenize (run ++ [c]) s'
      else
        let (newTags, newText) := tokenize [] s' in
        match run with
        | [] => (newTags, c :: newText)
        | _ :: _ => (run :: newTags, newText)
        end
  end.

(** ** Arrays and [Set] *)

Notation "a === b" := (jsstring_eqb a b) (at level 70, no associativity).

(** [Array.prototype.includes] on an array of strings. *)
Definition includes (l : list jsstring) (x : jsstring) : bool :=
  existsb (fun y => y === x) l.

(** [Set.prototype.add]: a [Set] iterates in insertion order, and adding a
    value it already holds changes nothing. *)
Definition Set_add (set : list jsstring) (x : jsstring) : list jsstring :=
  if includes set x then set else set ++ [x].

(** [[...new Set(l)]] *)
Definition Set_spread (l : list jsstring) : list jsstring :=
  fold_left Set_add l [].

(** [Array.prototype.slice(start, end)], with its relative (negative)
    indices. *)
Definition slice {A : Type} (l : list A) (start end_ : Z) : list A :=
  let len := Z.of_nat (length l) in
  let from := if (start <? 0)%Z then Z.max (len + start) 0 else Z.min start len in
  let final := if (end_ <? 0)%Z then Z.max (len + end_) 0 else Z.min end_ len in
  firstn (Z.to_nat (final - from)) (skipn (Z.to_nat from) l).

(** ** State of the component and its effects *)

Record State : Type := mkState {
  inputText : jsstring;
  tags : list jsstring;
  deletionIsPending : bool
}.

(** The component in its environment: the React state and the calls of
    [props.onValueChange] received by the host so far, oldest first. *)
Record World : Type := mkWorld {
  state : State;
  host : list (list jsstring)
}.

(** An effect of a handler.  Handlers return nothing, so an effect is a
    world transformer and [;;] runs two of them in sequence. *)
Definition Effect : Type := World -> World.

Definition andThen (a b : Effect) : Effect := fun w => b (a w).
Notation "a ;; b" := (andThen a b) (at level 61, right associativity).

Definition skip : Effect := fun w => w.

Definition when (c : bool) (a : Effect) : Effect := if c then a else skip.

(** [setTags((tags) => f(tags))]: a functional update of the latest state. *)
Definition setTags (f : list jsstring -> list jsstring) : Effect :=
  fun w =>
    let s := state w in
    mkWorld (mkState (inputText s) (f (tags s)) (deletionIsPending s)) (host w).

Definition setInputText (t : jsstring) : Effect :=
  fun w =>
    let s := state w in
    mkWorld (mkState t (tags s) (deletionIsPending s)) (host w).

Definition setDeletionIsPending (b : bool) : Effect :=
  fun w =>
    let s := state w in
    mkWorld (mkState (inputText s) (tags s) b) (host w).

(** [props.onValueChange(value)] *)
Definition onValueChange (value : list jsstring) : Effect :=
  fun w => mkWorld (state w) (host w ++ [value]).

(** ** The handlers

    A handler is created by a render and closes over the state of that
    render ([tags], [deletionIsPending]); the first argument [render] stands
    for it. *)

Record ChangeEvent : Type := { target_value : jsstring }.

Record KeyboardEvent : Type := {
  key : jsstring;
  currentTarget_value : jsstring
}.

Definition handleInputChange (render : State) (e : ChangeEvent) : Effect :=
  let text := target_value e in
  let (newTags, newText) := replaceAll text in
  setTags (fun tags => Set_spread (tags ++ newTags)) ;;
  setDeletionIsPending false ;;
  setInputText newText ;;
  onValueChange (Set_spread (tags render ++ newTags)).

(** [e.preventDefault()] acts on the browser only and is left out. *)
Definition handleKeyDown (render : State) (e : KeyboardEvent) : Effect :=
  let text := currentTarget_value e in
  when (key e === lit "Enter")
    (when (negb (text === []) && negb (includes (tags render) (trim text)))
       (setTags (fun tags => Set_spread (tags ++ [trim text])) ;;
        setInputText [] ;;
        onValueChange (Set_spread (tags render ++ [trim text])))) ;;
  when ((key e === lit "Backspace") && (text === []))
    (if deletionIsPending render then
       setTags (fun tags => slice tags 0 (Z.of_nat (length tags) - 1)) ;;
       onValueChange
         (slice (tags render) 0 (Z.of_nat (length (tags render)) - 1)) ;;
       setDeletionIsPending false
     else
       setDeletionIsPending true).

(** The [onDelete] closure given to the [TagItem] that shows [tag]. *)
Definition onDelete (render : State) (tag : jsstring) : Effect :=
  setTags (fun tags => filter (fun tagB => negb (tagB === tag)) tags) ;;
  onValueChange (filter (fun tagB => negb (tagB === tag)) (tags render)).

(** The [isUpForDeletion] prop of the [i]-th [TagItem]:
    [i === tags.length - 1 && deletionIsPending]. *)
Definition isUpForDeletion (render : State) (i : nat) : bool :=
  (Z.of_nat i =? Z.of_nat (length (tags render)) - 1)%Z
  && deletionIsPending render.

(** The value of the hidden input: [tags.join(",")]. *)
Fixpoint join (l : list jsstring) : jsstring :=
  match l with
  | [] => []
  | [x] => x
  | x :: l' => x ++ comma :: join l'
  end.

(** ** The component as an event-driven system *)

(** First render: [useState] of the empty string, [useState(props.defaultValue)],
    [useState(false)]. *)
Definition mount (defaultValue : list jsstring) : World :=
  mkWorld (mkState [] defaultValue false) [].

(** An event reaches the handler of the latest render. *)
Definition dispatch (h : State -> Effect) (w : World) : World :=
  h (state w) w.

Inductive Event : Type :=
| Change (text : jsstring)      (* the field now holds [text] *)
| KeyDown (k : jsstring)        (* key [k] goes down in the field *)
| DeleteClick (i : nat).        (* click on the button of the [i]-th tag *)

(** The two key names the component looks for. *)
Definition Enter : jsstring := lit "Enter".
Definition Backspace : jsstring := lit "Backspace".

(** Key [k] goes down while the field shows [text]. *)
Definition press (k text : jsstring) (w : World) : World :=
  dispatch
    (fun r => handleKeyDown r {| key := k; currentTarget_value := text |}) w.

(** The text of the field becomes [text]. *)
Definition change (text : jsstring) (w : World) : World :=
  dispatch (fun r => handleInputChange r {| target_value := text |}) w.

(** The delete button of a [TagItem] showing [tag] is clicked. *)
Definition delete (tag : jsstring) (w : World) : World :=
  dispatch (fun r => onDelete r tag) w.

(** The input is controlled ([value={inputText}]), so a key event sees
    [inputText] as the value of the field; a [TagItem] exists for the tags
    of the list only. *)
Definition fire (ev : Event) (w : World) : World :=
  match ev with
  | Change text => change text w
  | KeyDown k => press k (inputText (state w)) w
  | DeleteClick i =>
      match nth_error (tags (state w)) i with
      | Some tag => delete tag w
      | None => w
      end
  end.

Definition run (evs : list Event) (w : World) : World :=
  fold_left (fun w ev => fire ev w) evs w.

(** Worlds the component can be in when it was mounted with
    [defaultValue]. *)
Inductive reachable (defaultValue : list jsstring) : World -> Prop :=
| reach_mount : reachable defaultValue (mount defaultValue)
| reach_fire w ev :
    reachable defaultValue w -> reachable defaultValue (fire ev w).

(** ** Predicates used to state the properties *)

(** A text made of tag characters only. *)
Definition tag_text (t : jsstring) : Prop := Forall (fun c => tag_char c = true) t.

(** A committed tag: not empty, made of tag characters. *)
Definition committed (t : jsstring) : Prop := t <> [] /\ tag_text t.

(** What stays in the field: delimiters that closed no tag, then the tag
    text still open. *)
Definition residue (b : jsstring) : Prop :=
  exists ds ts, b = ds ++ ts /\ Forall (fun d => delimiter d = true) ds /\ tag_text ts.

(** [before x y l]: some occurrence of [x] in [l] has a [y] after it. *)
Inductive before (x y : jsstring) : list jsstring -> Prop :=
| before_here l : In y l -> before x y (x :: l)
| before_later z l : before x y l -> before x y (z :: l).

(** [first_before x y l]: both occur in [l], and the first occurrence of [x]
    comes before the first occurrence of [y]. *)
Inductive first_before (x y : jsstring) : list jsstring -> Prop :=
| first_before_here l : x <> y -> In y l -> first_before x y (x :: l)
| first_before_later z l :
    z <> x -> z <> y -> first_before x y l -> first_before x y (z :: l).

(** A list [r] presents the values of [l] once each, in the order of their
    first occurrence in [l]. *)
Definition first_occurrence_order (r l : list jsstring) : Prop :=
  (forall x, In x r <-> In x l) /\
  (forall x y, before x y r <-> first_before x y l).

(** A text that is not empty and is its own trimmed form. *)
Definition trimmed_nonempty (t : jsstring) : Prop := t <> [] /\ trim t = t.

(** What holds of every world the component can be in. *)
Record invariant (w : World) : Prop := {
  inv_pending : deletionIsPending (state w) = true -> inputText (state w) = [];
  inv_residue : residue (inputText (state w));
  inv_NoDup : inputText (state w) <> [] -> NoDup (tags (state w))
}.

(** No two elements are equal as trimmed strings. *)
Definition unique_trimmed (l : list jsstring) : Prop := NoDup (map trim l).

(** Some delimiter of [b] is directly followed by a code unit that is not a
    delimiter. *)
Fixpoint delimiter_then_text (b : jsstring) : bool :=
  match b with
  | d :: (c :: _) as b' =>
      (delimiter d && negb (delimiter c)) || delimiter_then_text b'
  | _ => false
  end.

(** Some code unit of [b] that is not a delimiter is directly followed by a
    delimiter. *)
Fixpoint text_then_delimiter (b : jsstring) : bool :=
  match b with
  | c :: (d :: _) as b' =>
      (negb (delimiter c) && delimiter d) || text_then_delimiter b'
  | _ => false
  end.

(** The texts [texts] arrive one after the other as change events. *)
Definition changes (texts : list jsstring) (w : World) : World :=
  run (map Change texts) w.

(** All the tags these change events capture, in order. *)
Definition captured (texts : list jsstring) : list jsstring :=
  concat (map (fun text => fst (replaceAll text)) texts).

(** The first code unit of [s] is a delimiter. *)
Definition starts_with_delimiter (s : jsstring) : bool :=
  match s with
  | d :: _ => delimiter d
  | [] => false
  end.

(** The user types [c] at the end of the field: the field, which shows
    [inputText], now holds one more code unit, and the change event carries
    the whole of it. *)
Definition typeChar (c : N) (w : World) : World :=
  fire (Change (inputText (state w) ++ [c])) w.

(** The user types [s], one code unit after the other. *)
Definition typeText (s : jsstring) (w : World) : World :=
  fold_left (fun w c => typeChar c w) s w.

(** No element has white space at either end. *)
Definition all_trimmed (l : list jsstring) : Prop := Forall (fun t => trim t = t) l.

(** * Properties of the built-ins *)

Section Strings.

Lemma jsstring_eqb_eq (a b : jsstring) : (a === b) = true <-> a = b.
Proof.
  revert b; induction a as [|x a IH]; intros [|y b]; simpl;
    try (split; [discriminate | discriminate]); try tauto.
  rewrite andb_true_iff, N.eqb_eq, IH.
  split; [intros [-> ->]; reflexivity | intros [= -> ->]; auto].
Qed.

Lemma jsstring_eqb_refl (a : jsstring) : (a === a) = true.
Proof. apply jsstring_eqb_eq; reflexivity. Qed.

Lemma jsstring_eqb_neq (a b : jsstring) : (a === b) = false <-> a <> b.
Proof.
  rewrite <- jsstring_eqb_eq. destruct (a === b); split; congruence.
Qed.

Lemma jsstring_eq_dec (a b : jsstring) : {a = b} + {a <> b}.
Proof.
  destruct (a === b) eqn:E; [left; apply jsstring_eqb_eq | right; apply jsstring_eqb_neq];
    exact E.
Defined.

Lemma includes_In (l : list jsstring) (x : jsstring) :
  includes l x = true <-> In x l.
Proof.
  unfold includes. rewrite existsb_exists. split.
  - intros (y & Hy & E). apply jsstring_eqb_eq in E. subst; assumption.
  - intros H. exists x. split; [assumption | apply jsstring_eqb_refl].
Qed.

Lemma includes_not_In (l : list jsstring) (x : jsstring) :
  includes l x = false <-> ~ In x l.
Proof.
  rewrite <- includes_In. destruct (includes l x); split; congruence.
Qed.

(** The two groups of the expression split the code units in two. *)
Lemma delimiter_tag_char (c : N) : delimiter c = negb (tag_char c).
Proof.
  unfold delimiter, tag_char. rewrite negb_involutive.
  destruct (is_space c), (c =? comma), (c =? semicolon); reflexivity.
Qed.

Lemma tag_char_not_space (c : N) : tag_char c = true -> is_space c = false.
Proof.
  unfold tag_char. destruct (is_space c); simpl; congruence.
Qed.

Lemma trimStart_tag_text (t : jsstring) : tag_text t -> trimStart t = t.
Proof.
  intros H. destruct H as [|c t Hc _]; simpl; [reflexivity|].
  rewrite (tag_char_not_space _ Hc). reflexivity.
Qed.

Lemma trim_tag_text (t : jsstring) : tag_text t -> trim t = t.
Proof.
  intros H. unfold trim, trimEnd.
  rewrite (trimStart_tag_text H), trimStart_tag_text, rev_involutive; auto.
  apply Forall_rev. exact H.
Qed.

End Strings.

(** * The scan of [handleInputChange] *)

Section Scan.

Lemma greedy_firstn (s : jsstring) : tag_text (firstn (greedy s) s).
Proof.
  induction s as [|c s IH]; simpl; [constructor|].
  destruct (tag_char c) eqn:E; simpl; constructor; assumption.
Qed.

Lemma greedy_skipn (s : jsstring) :
  match skipn (greedy s) s with
  | [] => True
  | d :: _ => tag_char d = false
  end.
Proof.
  induction s as [|c s IH]; simpl; [exact I|].
  destruct (tag_char c) eqn:E; simpl; assumption.
Qed.

(** Backtracking inside a run of tag characters never finds a delimiter. *)
Lemma backtrack_tag_text (n : nat) (t : jsstring) :
  tag_text t -> backtrack n t = None.
Proof.
  intros Ht. induction n as [|n IH]; [reflexivity|].
  cbn [backtrack]. destruct (skipn (S n) t) as [|d rest] eqn:E; [exact IH|].
  assert (Hd : tag_char d = true).
  { pose proof (firstn_skipn (S n) t) as Hsplit. rewrite E in Hsplit.
    unfold tag_text in Ht. rewrite <- Hsplit in Ht.
    apply Forall_app in Ht. destruct Ht as [_ Ht]. inversion Ht; assumption. }
  rewrite delimiter_tag_char, Hd. exact IH.
Qed.

Lemma tokenize_run (t run rest : jsstring) :
  tag_text t -> tokenize run (t ++ rest) = tokenize (run ++ t) rest.
Proof.
  intros Ht. revert run. induction Ht as [|c t Hc _ IH]; intros run; simpl.
  - rewrite app_nil_r. reflexivity.
  - rewrite Hc, IH, <- app_assoc. reflexivity.
Qed.

Lemma tokenize_tag_text (t : jsstring) :
  tag_text t -> tokenize [] t = ([], t).
Proof.
  intros Ht. rewrite <- (app_nil_r t) at 1.
  rewrite (tokenize_run [] [] Ht). reflexivity.
Qed.

(** With fuel for every code unit, the scan of [replaceAll] is the
    tokenizer: the fuel never runs out before the text does. *)
Lemma replaceAll_loop_tokenize (fuel : nat) :
  forall s, (length s <= fuel)%nat -> replaceAll_loop fuel s = tokenize [] s.
Proof.
  induction fuel as [|fuel IH]; intros [|c s'] Hlen; simpl in Hlen;
    try reflexivity; try lia.
  cbn [replaceAll_loop].
  destruct (tag_char c) eqn:Ec.
  - set (s := c :: s').
    pose proof (greedy_firstn s) as Ht.
    pose proof (greedy_skipn s) as Hd.
    pose proof (firstn_skipn (greedy s) s) as Hsplit.
    assert (Hn : greedy s = S (greedy s')) by (subst s; simpl; rewrite Ec; reflexivity).
    unfold exec_at. rewrite Hn. cbn [backtrack]. rewrite <- Hn.
    destruct (skipn (greedy s) s) as [|d rest] eqn:Erest.
    + (* the run reaches the end of the text: no delimiter closes it *)
      rewrite app_nil_r in Hsplit. rewrite Hsplit in Ht.
      rewrite backtrack_tag_text by exact Ht.
      assert (Ht' : tag_text s') by (inversion Ht; assumption).
      rewrite IH by lia. rewrite (tokenize_tag_text Ht'), (tokenize_tag_text Ht).
      reflexivity.
    + rewrite delimiter_tag_char, Hd. cbn [negb].
      assert (Hlen' : (length rest <= fuel)%nat).
      { apply (f_equal (@length N)) in Hsplit. rewrite length_app in Hsplit.
        subst s. simpl in Hsplit. simpl. lia. }
      rewrite IH by exact Hlen'. rewrite (trim_tag_text Ht).
      replace (tokenize [] s) with (tokenize [] (firstn (greedy s) s ++ d :: rest))
        by (rewrite Hsplit; reflexivity).
      rewrite (tokenize_run [] (d :: rest) Ht).
      cbn [tokenize app]. rewrite Hd.
      destruct (tokenize [] rest) as [newTags newText].
      rewrite Hn. subst s. reflexivity.
  - unfold exec_at. simpl. rewrite Ec. cbn [backtrack].
    rewrite IH by lia. reflexivity.
Qed.

Lemma replaceAll_tokenize (text : jsstring) : replaceAll text = tokenize [] text.
Proof. apply replaceAll_loop_tokenize. apply Nat.le_refl. Qed.

(** More fuel changes nothing. *)
Lemma replaceAll_loop_enough (fuel : nat) (text : jsstring) :
  (length text <= fuel)%nat -> replaceAll_loop fuel text = replaceAll text.
Proof.
  intros H. rewrite replaceAll_tokenize. apply replaceAll_loop_tokenize, H.
Qed.

Lemma committed_trim (t : jsstring) : committed t -> trim t = t.
Proof. intros [_ H]. apply trim_tag_text, H. Qed.

Lemma tokenize_committed (s run : jsstring) :
  tag_text run -> Forall committed (fst (tokenize run s)).
Proof.
  revert run. induction s as [|c s IH]; intros run Hrun; simpl; [constructor|].
  destruct (tag_char c) eqn:Ec.
  - apply IH. apply Forall_app. split; [assumption | repeat constructor; assumption].
  - specialize (IH [] (Forall_nil _)).
    destruct (tokenize [] s) as [newTags newText]. simpl in IH.
    destruct run as [|r run]; simpl; [assumption|].
    constructor; [split; [discriminate | assumption] | assumption].
Qed.

Lemma replaceAll_committed (text : jsstring) :
  Forall committed (fst (replaceAll text)).
Proof. rewrite replaceAll_tokenize. apply tokenize_committed. constructor. Qed.

Lemma tokenize_residue (s run : jsstring) :
  tag_text run -> residue (snd (tokenize run s)).
Proof.
  revert run. induction s as [|c s IH]; intros run Hrun; simpl.
  - exists [], run. repeat split; [constructor | assumption].
  - destruct (tag_char c) eqn:Ec.
    + apply IH. apply Forall_app. split; [assumption | repeat constructor; assumption].
    + specialize (IH [] (Forall_nil _)).
      destruct (tokenize [] s) as [newTags newText]. simpl in IH.
      destruct run as [|r run]; simpl; [|assumption].
      destruct IH as (ds & ts & -> & Hds & Hts).
      exists (c :: ds), ts. repeat split; [|assumption].
      constructor; [rewrite delimiter_tag_char, Ec; reflexivity | assumption].
Qed.

Lemma replaceAll_residue (text : jsstring) : residue (snd (replaceAll text)).
Proof. rewrite replaceAll_tokenize. apply tokenize_residue. constructor. Qed.

(** A residue holds nothing to commit: scanning it again gives it back. *)
Lemma residue_replaceAll (b : jsstring) : residue b -> replaceAll b = ([], b).
Proof.
  intros (ds & ts & -> & Hds & Hts). rewrite replaceAll_tokenize.
  induction Hds as [|d ds Hd _ IH]; simpl.
  - apply tokenize_tag_text, Hts.
  - rewrite delimiter_tag_char in Hd. apply negb_true_iff in Hd.
    rewrite Hd, IH. reflexivity.
Qed.

Lemma committed_trimmed_nonempty (t : jsstring) : committed t -> trimmed_nonempty t.
Proof. intros H. split; [apply H | apply committed_trim, H]. Qed.

Lemma map_trim_id (l : list jsstring) : Forall trimmed_nonempty l -> map trim l = l.
Proof.
  induction 1 as [|t l [_ Ht] _ IH]; simpl; [reflexivity|].
  rewrite Ht, IH. reflexivity.
Qed.

Lemma residue_nil : residue [].
Proof. exists [], []. repeat split; constructor. Qed.

Lemma tag_text_no_text_then_delimiter (ts : jsstring) :
  tag_text ts -> text_then_delimiter ts = false.
Proof.
  induction 1 as [|c ts Hc Hts IH]; [reflexivity|].
  destruct Hts as [|d ts Hd Hts]; [reflexivity|].
  cbn [text_then_delimiter] in *. rewrite IH.
  rewrite (delimiter_tag_char d), Hd. simpl.
  rewrite andb_false_r. reflexivity.
Qed.

Lemma residue_no_text_then_delimiter (b : jsstring) :
  residue b -> text_then_delimiter b = false.
Proof.
  intros (ds & ts & -> & Hds & Hts).
  induction Hds as [|d ds Hd _ IH]; [apply tag_text_no_text_then_delimiter, Hts|].
  cbn [app text_then_delimiter]. rewrite IH, Hd.
  destruct (ds ++ ts); reflexivity.
Qed.

End Scan.

(** * [Set] and the order of the tags *)

Section Sets.

Lemma Set_add_In (set : list jsstring) (z x : jsstring) :
  In x (Set_add set z) <-> In x set \/ x = z.
Proof.
  unfold Set_add. destruct (includes set z) eqn:E.
  - apply includes_In in E. split; [auto | intros [H | ->]; assumption].
  - rewrite in_app_iff. simpl. intuition congruence.
Qed.

Lemma Set_add_NoDup (set : list jsstring) (z : jsstring) :
  NoDup set -> NoDup (Set_add set z).
Proof.
  intros H. unfold Set_add. destruct (includes set z) eqn:E; [assumption|].
  apply includes_not_In in E. apply NoDup_app; [assumption | repeat constructor; auto |].
  intros a Ha [<- | []]. contradiction.
Qed.

Lemma fold_Set_add_In (l set : list jsstring) (x : jsstring) :
  In x (fold_left Set_add l set) <-> In x set \/ In x l.
Proof.
  revert set. induction l as [|z l IH]; intros set; simpl; [tauto|].
  rewrite IH, Set_add_In. intuition congruence.
Qed.

Lemma fold_Set_add_NoDup (l set : list jsstring) :
  NoDup set -> NoDup (fold_left Set_add l set).
Proof.
  revert set. induction l as [|z l IH]; intros set H; simpl; [assumption|].
  apply IH, Set_add_NoDup, H.
Qed.

Lemma Set_spread_In (l : list jsstring) (x : jsstring) :
  In x (Set_spread l) <-> In x l.
Proof. unfold Set_spread. rewrite fold_Set_add_In. simpl. tauto. Qed.

Lemma Set_spread_NoDup (l : list jsstring) : NoDup (Set_spread l).
Proof. apply fold_Set_add_NoDup. constructor. Qed.

(** Adding values that are all new, and new to each other, appends them. *)
Lemma fold_Set_add_fresh (l set : list jsstring) :
  NoDup (set ++ l) -> fold_left Set_add l set = set ++ l.
Proof.
  revert set. induction l as [|z l IH]; intros set H; simpl.
  - rewrite app_nil_r. reflexivity.
  - pose proof (NoDup_remove_2 _ _ _ H) as Hz.
    assert (E : includes set z = false).
    { apply includes_not_In. intros Hin. apply Hz, in_or_app. left. exact Hin. }
    unfold Set_add at 2. rewrite E. rewrite IH; rewrite <- app_assoc; [reflexivity | exact H].
Qed.

Lemma Set_spread_NoDup_id (l : list jsstring) : NoDup l -> Set_spread l = l.
Proof. intros H. apply (fold_Set_add_fresh l []). exact H. Qed.

Lemma Set_spread_app (a b : list jsstring) :
  Set_spread (a ++ b) = fold_left Set_add b (Set_spread a).
Proof. apply fold_left_app. Qed.

Lemma Set_spread_spread_app (a b : list jsstring) :
  Set_spread (Set_spread a ++ b) = Set_spread (a ++ b).
Proof.
  rewrite !Set_spread_app.
  rewrite (Set_spread_NoDup_id (Set_spread_NoDup a)). reflexivity.
Qed.

Lemma filter_all {A : Type} (f : A -> bool) (l : list A) :
  (forall a, In a l -> f a = true) -> filter f l = l.
Proof.
  induction l as [|x l IH]; intros H; simpl; [reflexivity|].
  rewrite (H x (or_introl eq_refl)), IH; [reflexivity|].
  intros a Ha. apply H. right. exact Ha.
Qed.

Lemma filter_filter {A : Type} (p q : A -> bool) (l : list A) :
  filter p (filter q l) = filter (fun x => q x && p x) l.
Proof.
  induction l as [|x l IH]; simpl; [reflexivity|].
  destruct (q x); simpl; [destruct (p x)|]; rewrite IH; reflexivity.
Qed.

Lemma includes_app (a b : list jsstring) (x : jsstring) :
  includes (a ++ b) x = includes a x || includes b x.
Proof. apply existsb_app. Qed.

(** The values already held stay where they are; new ones go to the end. *)
Lemma fold_Set_add_filter (l set : list jsstring) :
  fold_left Set_add l set =
  set ++ filter (fun y => negb (includes set y)) (Set_spread l).
Proof.
  revert set. induction l as [|z l IH]; intros set; simpl.
  - rewrite app_nil_r. reflexivity.
  - rewrite IH. unfold Set_spread at 2. simpl.
    change (Set_add [] z) with [z]. rewrite (IH [z]). simpl.
    unfold Set_add. destruct (includes set z) eqn:E; simpl.
    + f_equal. rewrite filter_filter. apply filter_ext.
      intros a. destruct (includes set a) eqn:Ea; simpl.
      * symmetry. apply andb_false_r.
      * rewrite andb_true_r, orb_false_r. symmetry.
        apply negb_true_iff, jsstring_eqb_neq. intros ->.
        congruence.
    + rewrite <- app_assoc. simpl. do 2 f_equal.
      rewrite filter_filter. apply filter_ext.
      intros a. rewrite includes_app, negb_orb. apply andb_comm.
Qed.

Lemma Set_spread_cons (z : jsstring) (l : list jsstring) :
  Set_spread (z :: l) = z :: filter (fun y => negb (y === z)) (Set_spread l).
Proof.
  unfold Set_spread at 1. simpl. change (Set_add [] z) with [z].
  rewrite fold_Set_add_filter. simpl. f_equal. apply filter_ext.
  intros a. rewrite orb_false_r. f_equal.
  destruct (z === a) eqn:E.
  - apply jsstring_eqb_eq in E. subst. symmetry. apply jsstring_eqb_refl.
  - symmetry. apply jsstring_eqb_neq. apply jsstring_eqb_neq in E. congruence.
Qed.

Lemma before_In (x y : jsstring) (l : list jsstring) :
  before x y l -> In x l /\ In y l.
Proof.
  induction 1 as [l H | z l _ [IHx IHy]]; simpl; auto.
Qed.

Lemma before_filter (p : jsstring -> bool) (x y : jsstring) (l : list jsstring) :
  before x y (filter p l) <-> before x y l /\ p x = true /\ p y = true.
Proof.
  induction l as [|z l IH]; simpl.
  - split; [inversion 1 | intros [H _]; inversion H].
  - destruct (p z) eqn:Ez.
    + split.
      * inversion 1 as [l' Hy | z' l' Hb]; subst.
        -- apply filter_In in Hy. destruct Hy as [Hy Hpy].
           repeat split; [apply before_here | |]; assumption.
        -- apply IH in Hb. destruct Hb as (Hb & Hx & Hy).
           repeat split; [apply before_later | |]; assumption.
      * intros (Hb & Hx & Hy). inversion Hb as [l' Hin | z' l' Hb']; subst.
        -- apply before_here. apply filter_In. auto.
        -- apply before_later. apply IH. auto.
    + rewrite IH. split.
      * intros (Hb & Hx & Hy). repeat split; [apply before_later | |]; assumption.
      * intros (Hb & Hx & Hy). inversion Hb as [l' Hin | z' l' Hb']; subst;
          [congruence | auto].
Qed.

(** The array spread from a [Set] lists the values in the order of their
    first occurrence. *)
Lemma Set_spread_order (l : list jsstring) (x y : jsstring) :
  before x y (Set_spread l) <-> first_before x y l.
Proof.
  induction l as [|z l IH].
  - split; inversion 1.
  - rewrite Set_spread_cons. split.
    + inversion 1 as [l' Hy | z' l' Hb]; subst.
      * apply filter_In in Hy. destruct Hy as [Hy Hne].
        apply negb_true_iff, jsstring_eqb_neq in Hne.
        apply first_before_here; [congruence | apply Set_spread_In, Hy].
      * apply before_filter in Hb. destruct Hb as (Hb & Hx & Hy).
        apply negb_true_iff, jsstring_eqb_neq in Hx.
        apply negb_true_iff, jsstring_eqb_neq in Hy.
        apply first_before_later; [congruence | congruence | apply IH, Hb].
    + inversion 1 as [l' Hne Hy | z' l' Hx Hy Hb]; subst.
      * apply before_here. apply filter_In. split; [apply Set_spread_In, Hy|].
        apply negb_true_iff, jsstring_eqb_neq. congruence.
      * apply before_later. apply before_filter.
        repeat split; [apply IH, Hb | |];
          apply negb_true_iff, jsstring_eqb_neq; congruence.
Qed.

Lemma Set_spread_first_occurrence_order (l : list jsstring) :
  first_occurrence_order (Set_spread l) l.
Proof.
  split; [apply Set_spread_In | apply Set_spread_order].
Qed.

End Sets.

(** * The handlers, case by case *)

Section Handlers.

Lemma change_eq (text : jsstring) (w : World) :
  change text w =
  let tags' := Set_spread (tags (state w) ++ fst (replaceAll text)) in
  mkWorld (mkState (snd (replaceAll text)) tags' false) (host w ++ [tags']).
Proof.
  unfold change, dispatch, handleInputChange. cbn [target_value].
  destruct (replaceAll text) as [newTags newText]. reflexivity.
Qed.

Lemma press_Enter (text : jsstring) (w : World) :
  press Enter text w =
  if negb (text === []) && negb (includes (tags (state w)) (trim text)) then
    let tags' := Set_spread (tags (state w) ++ [trim text]) in
    mkWorld (mkState [] tags' (deletionIsPending (state w))) (host w ++ [tags'])
  else w.
Proof.
  unfold press, dispatch, handleKeyDown. cbn [key currentTarget_value].
  change (Enter === lit "Enter") with true.
  change (Enter === lit "Backspace") with false.
  destruct (negb (text === []) && negb (includes (tags (state w)) (trim text)));
    reflexivity.
Qed.

Lemma press_Backspace (text : jsstring) (w : World) :
  press Backspace text w =
  if text === [] then
    if deletionIsPending (state w) then
      let tags' := slice (tags (state w)) 0 (Z.of_nat (length (tags (state w))) - 1) in
      mkWorld (mkState (inputText (state w)) tags' false) (host w ++ [tags'])
    else
      mkWorld (mkState (inputText (state w)) (tags (state w)) true) (host w)
  else w.
Proof.
  unfold press, dispatch, handleKeyDown. cbn [key currentTarget_value].
  change (Backspace === lit "Enter") with false.
  change (Backspace === lit "Backspace") with true.
  destruct w as [[it ts p] h]. cbn.
  destruct (text === []); [destruct p|]; reflexivity.
Qed.

Lemma press_other (k text : jsstring) (w : World) :
  k <> Enter -> k <> Backspace -> press k text w = w.
Proof.
  intros HE HB. apply jsstring_eqb_neq in HE, HB.
  unfold press, dispatch, handleKeyDown. cbn [key currentTarget_value].
  fold Enter Backspace. rewrite HE, HB. reflexivity.
Qed.

Lemma key_cases (k : jsstring) : k = Enter \/ k = Backspace \/ (k <> Enter /\ k <> Backspace).
Proof.
  destruct (jsstring_eq_dec k Enter); [auto|].
  destruct (jsstring_eq_dec k Backspace); auto.
Qed.

Lemma delete_eq (tag : jsstring) (w : World) :
  delete tag w =
  let tags' := filter (fun tagB => negb (tagB === tag)) (tags (state w)) in
  mkWorld (mkState (inputText (state w)) tags' (deletionIsPending (state w)))
    (host w ++ [tags']).
Proof. reflexivity. Qed.

(** The hidden input of the tag list [["x"; "y"]] holds ["x,y"]. *)
Example join_example : join [lit "x"; lit "y"] = lit "x,y".
Proof. reflexivity. Qed.

(** [tags.slice(0, tags.length - 1)] drops the last element, if any. *)
Lemma slice_init {A : Type} (l : list A) :
  slice l 0 (Z.of_nat (length l) - 1) = removelast l.
Proof.
  unfold slice. rewrite removelast_firstn_len. cbn [Z.ltb Z.compare Z.min].
  destruct l as [|x l]; [reflexivity|].
  replace (Z.min 0 (Z.of_nat (length (x :: l)))) with 0%Z by lia.
  cbn [Z.to_nat skipn].
  destruct (Z.of_nat (length (x :: l)) - 1 <? 0)%Z eqn:E;
    [apply Z.ltb_lt in E; simpl length in E; lia|].
  f_equal. simpl length. lia.
Qed.

Lemma captured_committed (texts : list jsstring) : Forall committed (captured texts).
Proof.
  unfold captured. induction texts as [|text texts IH]; simpl; [constructor|].
  apply Forall_app. split; [apply replaceAll_committed | exact IH].
Qed.

(** A sequence of change events builds the tag list as one [Set] would. *)
Lemma tags_changes (texts : list jsstring) (w : World) :
  NoDup (tags (state w)) ->
  tags (state (changes texts w)) = Set_spread (tags (state w) ++ captured texts).
Proof.
  revert w. induction texts as [|text texts IH]; intros w H.
  - unfold changes, captured. simpl. rewrite app_nil_r.
    symmetry. apply Set_spread_NoDup_id, H.
  - unfold changes in *. cbn [map run fold_left fire].
    fold (run (map Change texts) (change text w)).
    rewrite IH; rewrite change_eq; cbn [state tags]; [|apply Set_spread_NoDup].
    rewrite Set_spread_spread_app. unfold captured. cbn [map concat].
    rewrite app_assoc. reflexivity.
Qed.

End Handlers.

(** * Invariants of the reachable worlds *)

Section Reachable.

Variable defaultValue : list jsstring.

Lemma invariant_mount : invariant (mount defaultValue).
Proof.
  split; simpl; [discriminate | apply residue_nil | congruence].
Qed.

Lemma invariant_change (text : jsstring) (w : World) : invariant (change text w).
Proof.
  rewrite change_eq. split; simpl.
  - discriminate.
  - apply replaceAll_residue.
  - intros _. apply Set_spread_NoDup.
Qed.

Lemma invariant_press (k : jsstring) (w : World) :
  invariant w -> invariant (press k (inputText (state w)) w).
Proof.
  intros [Hp Hr Hn].
  destruct (key_cases k) as [-> | [-> | [HE HB]]].
  - rewrite press_Enter.
    destruct (negb (inputText (state w) === []) && _) eqn:E;
      [|split; assumption].
    apply andb_true_iff in E. destruct E as [E _].
    apply negb_true_iff, jsstring_eqb_neq in E.
    split; simpl; [reflexivity | apply residue_nil | congruence].
  - rewrite press_Backspace.
    destruct (inputText (state w) === []) eqn:E; [|split; assumption].
    apply jsstring_eqb_eq in E.
    destruct (deletionIsPending (state w)); split; simpl; rewrite ?E;
      solve [reflexivity | apply residue_nil | congruence | discriminate].
  - rewrite press_other by assumption. split; assumption.
Qed.

Lemma invariant_delete (tag : jsstring) (w : World) :
  invariant w -> invariant (delete tag w).
Proof.
  intros [Hp Hr Hn]. rewrite delete_eq. split; simpl; try assumption.
  intros H. apply NoDup_filter, Hn, H.
Qed.

Lemma invariant_fire (ev : Event) (w : World) : invariant w -> invariant (fire ev w).
Proof.
  intros H. destruct ev as [text | k | i]; simpl.
  - apply invariant_change.
  - apply invariant_press, H.
  - destruct (nth_error (tags (state w)) i); [apply invariant_delete|]; exact H.
Qed.

Lemma reachable_invariant (w : World) :
  reachable defaultValue w -> invariant w.
Proof.
  induction 1 as [|w ev _ IH]; [apply invariant_mount | apply invariant_fire, IH].
Qed.

Lemma reachable_run (evs : list Event) (w : World) :
  reachable defaultValue w -> reachable defaultValue (run evs w).
Proof.
  revert w. induction evs as [|ev evs IH]; intros w H; simpl; [exact H|].
  apply IH. constructor. exact H.
Qed.

End Reachable.

(** * The properties of the specification *)

Section Claims.

(** ** Text changes *)

Lemma replaceAll_example_terminated :
  replaceAll (lit "alpha, beta;gamma ") =
  ([lit "alpha"; lit "beta"; lit "gamma"], lit " ").
Proof. vm_compute. reflexivity. Qed.

Lemma replaceAll_example_partial :
  replaceAll (lit "alpha, be") = ([lit "alpha"], lit " be").
Proof. vm_compute. reflexivity. Qed.

(** C1, as stated, fails.  The list [["a "]] has no duplicate, and after
    the change to ["a,"] the list is [["a "; "a"]], whose two elements are
    equal as trimmed strings: [Set] compares the strings as they are.  And
    an empty string of the initial list stays in the list. *)
Lemma C1_counterexample :
  (let init := [lit "a "] in
   let r := tags (state (changes [lit "a,"] (mount init))) in
   NoDup init /\ r = [lit "a "; lit "a"] /\ ~ unique_trimmed r)
  /\ (let init := [[]] in
      let r := tags (state (changes [lit "b,"] (mount init))) in
      NoDup init /\ r = [[]; lit "b"] /\ In [] r).
Proof.
  cbv zeta. split; [split; [|split] | split; [|split]].
  - repeat constructor. simpl. tauto.
  - vm_compute. reflexivity.
  - unfold unique_trimmed.
    replace (map trim (tags (state (changes [lit "a,"] (mount [lit "a "])))))
      with [lit "a"; lit "a"] by (vm_compute; reflexivity).
    intros H. inversion H as [|x l Hin _]; subst. apply Hin. left. reflexivity.
  - repeat constructor. simpl. tauto.
  - vm_compute. reflexivity.
  - left. reflexivity.
Qed.

(** C1 (amended).  For every sequence of change events starting from an
    initial tag list without duplicate, the resulting tag list has no two
    equal elements, lists the initial and the captured tags once each in the
    order of their first occurrence, and keeps the initial tags in front.
    When the initial tags are moreover non-empty and already trimmed, no two
    elements are equal as trimmed strings and none is the empty string. *)
Theorem C1_changes_keep_TagList_valid (init texts : list jsstring) :
  NoDup init ->
  let r := tags (state (changes texts (mount init))) in
  NoDup r
  /\ first_occurrence_order r (init ++ captured texts)
  /\ (exists added, r = init ++ added)
  /\ (Forall trimmed_nonempty init -> unique_trimmed r /\ ~ In [] r).
Proof.
  intros Hnd r.
  assert (Er : r = Set_spread (init ++ captured texts)).
  { subst r. rewrite tags_changes; [reflexivity | exact Hnd]. }
  clearbody r. subst r.
  set (r := Set_spread (init ++ captured texts)).
  assert (Hr : NoDup r) by apply Set_spread_NoDup.
  split; [exact Hr | split; [|split]].
  - apply Set_spread_first_occurrence_order.
  - subst r. rewrite Set_spread_app, (Set_spread_NoDup_id Hnd), fold_Set_add_filter.
    eexists. reflexivity.
  - intros Hinit.
    assert (Hall : Forall trimmed_nonempty r).
    { apply Forall_forall. intros x Hx.
      apply (proj1 (Set_spread_In _ _)), in_app_or in Hx. destruct Hx as [Hx | Hx].
      - revert x Hx. apply Forall_forall. exact Hinit.
      - apply committed_trimmed_nonempty. revert x Hx.
        apply Forall_forall. apply captured_committed. }
    split.
    + unfold unique_trimmed. rewrite (map_trim_id Hall). exact Hr.
    + intros Hin. rewrite Forall_forall in Hall.
      destruct (Hall [] Hin) as [Hne _]. apply Hne. reflexivity.
Qed.

Lemma C1_witness :
  let init := [lit "x"] in
  let texts := [lit "alpha, x;beta "; lit "beta,"] in
  let r := tags (state (changes texts (mount init))) in
  (NoDup init /\ Forall trimmed_nonempty init)
  /\ NoDup r
  /\ first_occurrence_order r (init ++ captured texts)
  /\ unique_trimmed r
  /\ ~ In [] r.
Proof.
  cbv zeta.
  assert (Hnd : NoDup [lit "x"]) by (repeat constructor; simpl; tauto).
  assert (Hf : Forall trimmed_nonempty [lit "x"]).
  { constructor; [split; [discriminate | vm_compute; reflexivity] | constructor]. }
  split; [split; assumption|].
  destruct (C1_changes_keep_TagList_valid [lit "alpha, x;beta "; lit "beta,"] Hnd)
    as (H1 & H2 & _ & H4).
  destruct (H4 Hf) as [H5 H6].
  split; [exact H1 | split; [exact H2 | split; [exact H5 | exact H6]]].
Defined.

(** C2, as stated, fails: the field is not empty afterwards.  The space
    after the comma follows no tag text, so no match takes it. *)
Lemma C2_counterexample :
  let w := change (lit "alpha, beta;gamma ") (mount []) in
  ~ (tags (state w) = [lit "alpha"; lit "beta"; lit "gamma"]
     /\ inputText (state w) = []).
Proof.
  cbv zeta. rewrite change_eq, replaceAll_example_terminated. cbn [state inputText snd].
  intros [_ H]. discriminate H.
Qed.

(** C2 (amended).  With an empty tag list, the change to
    ["alpha, beta;gamma "] yields the tag list [["alpha"; "beta"; "gamma"]],
    reports it to the host, and leaves one space in the field. *)
Theorem C2_delimiter_parsing (field : jsstring) (pending : bool)
    (calls : list (list jsstring)) :
  let w := change (lit "alpha, beta;gamma ")
             (mkWorld (mkState field [] pending) calls) in
  tags (state w) = [lit "alpha"; lit "beta"; lit "gamma"]
  /\ inputText (state w) = lit " "
  /\ host w = calls ++ [[lit "alpha"; lit "beta"; lit "gamma"]].
Proof.
  cbv zeta. rewrite change_eq, replaceAll_example_terminated.
  cbn [state tags host inputText fst snd app].
  repeat split; f_equal; vm_compute; reflexivity.
Qed.

(** C7, as stated, fails: the field holds [" be"], with the space that
    followed the comma, not ["be"]. *)
Lemma C7_counterexample :
  let w := change (lit "alpha, be") (mount []) in
  ~ (tags (state w) = [lit "alpha"] /\ inputText (state w) = lit "be").
Proof.
  cbv zeta. rewrite change_eq, replaceAll_example_partial. cbn [state inputText snd].
  intros [_ H]. discriminate H.
Qed.

(** C7 (amended).  With an empty tag list, the change to ["alpha, be"]
    yields the tag list [["alpha"]] and leaves [" be"] in the field. *)
Theorem C7_partial_input (field : jsstring) (pending : bool)
    (calls : list (list jsstring)) :
  let w := change (lit "alpha, be") (mkWorld (mkState field [] pending) calls) in
  tags (state w) = [lit "alpha"]
  /\ inputText (state w) = lit " be"
  /\ host w = calls ++ [[lit "alpha"]].
Proof.
  cbv zeta. rewrite change_eq, replaceAll_example_partial.
  cbn [state tags host inputText fst snd app].
  repeat split; f_equal; vm_compute; reflexivity.
Qed.

(** C4, as stated, fails: after the change to [" a"] the field holds
    [" a"], a delimiter followed by text that is not a delimiter. *)
Lemma C4_counterexample :
  let w := change (lit " a") (mount []) in
  inputText (state w) = lit " a"
  /\ delimiter_then_text (inputText (state w)) = true.
Proof. cbv zeta. split; vm_compute; reflexivity. Qed.

(** C4 (amended).  After every change event, whatever the text, the field
    never holds tag text directly followed by a delimiter: it holds
    delimiters that closed no tag, then the tag text still open, and a new
    scan of it commits nothing. *)
Theorem C4_field_is_residue (text : jsstring) (w : World) :
  let b := inputText (state (change text w)) in
  text_then_delimiter b = false
  /\ residue b
  /\ replaceAll b = ([], b).
Proof.
  cbv zeta. rewrite change_eq. cbn [state inputText].
  pose proof (replaceAll_residue text) as H.
  repeat split;
    [apply residue_no_text_then_delimiter | | apply residue_replaceAll]; exact H.
Qed.

(** ** The Enter key *)

Lemma press_Enter_noop (text : jsstring) (w : World) :
  text = [] \/ In (trim text) (tags (state w)) -> press Enter text w = w.
Proof.
  intros H. rewrite press_Enter. destruct H as [-> | H]; [reflexivity|].
  apply includes_In in H. rewrite H, andb_false_r. reflexivity.
Qed.

Lemma press_Enter_In (text : jsstring) (w : World) :
  text <> [] -> In (trim text) (tags (state (press Enter text w))).
Proof.
  intros Hne. rewrite press_Enter.
  apply jsstring_eqb_neq in Hne. rewrite Hne. cbn [negb andb].
  destruct (includes (tags (state w)) (trim text)) eqn:E; cbn [negb].
  - apply includes_In, E.
  - cbn [state tags]. apply Set_spread_In, in_or_app. right. left. reflexivity.
Qed.

(** C3: the field can hold one space (the change to [" "] commits nothing
    and keeps it); its trimmed form is empty, and yet Enter appends the
    empty string to the tag list, empties the field and calls the host with
    the new list.  Only the empty text itself is guarded against. *)
Theorem C3_Enter_on_whitespace_adds_empty_tag :
  let w := fire (Change (lit " ")) (mount []) in
  let w' := fire (KeyDown Enter) w in
  (inputText (state w) = lit " " /\ trim (inputText (state w)) = [])
  /\ tags (state w) = []
  /\ tags (state w') = [[]]
  /\ inputText (state w') = []
  /\ host w' = host w ++ [[[]]]
  /\ (forall v : World, press Enter [] v = v).
Proof.
  cbv zeta. repeat split; vm_compute; reflexivity.
Qed.

(** C8.  In every world the component can reach, with a field that is not
    empty: a second Enter changes nothing, whether it comes right after the
    first or after the same text was typed again into the field, and the
    tag list then holds the trimmed text exactly once. *)
Theorem C8_Enter_twice (defaultValue : list jsstring) (w : World) :
  reachable defaultValue w ->
  inputText (state w) <> [] ->
  let text := inputText (state w) in
  let once := fire (KeyDown Enter) w in
  let retyped := fire (Change text) once in
  (fire (KeyDown Enter) once = once
   /\ count_occ jsstring_eq_dec (tags (state once)) (trim text) = 1%nat)
  /\ (inputText (state retyped) = text
      /\ fire (KeyDown Enter) retyped = retyped
      /\ tags (state retyped) = tags (state once)
      /\ count_occ jsstring_eq_dec (tags (state retyped)) (trim text) = 1%nat).
Proof.
  intros Hreach Hne text once retyped.
  pose proof (reachable_invariant Hreach) as [_ Hres Hnd0].
  assert (Eonce : once = press Enter text w) by reflexivity.
  assert (Eretyped : retyped = change text once) by reflexivity.
  assert (Etext : inputText (state w) = text) by reflexivity.
  fold text in Hne, Hres, Hnd0. clearbody retyped once text.
  assert (Hin : In (trim text) (tags (state once))).
  { rewrite Eonce. apply press_Enter_In, Hne. }
  assert (Hnd : NoDup (tags (state once))).
  { rewrite Eonce, press_Enter.
    destruct (negb (text === []) && _); cbn [state tags];
      [apply Set_spread_NoDup | apply Hnd0, Hne]. }
  assert (Hfield : inputText (state once) = [] \/ inputText (state once) = text).
  { rewrite Eonce, press_Enter.
    destruct (negb (text === []) && _); cbn [state inputText]; auto. }
  assert (Hcount : count_occ jsstring_eq_dec (tags (state once)) (trim text) = 1%nat).
  { apply NoDup_count_occ'; assumption. }
  assert (Hretyped : state retyped = mkState text (tags (state once)) false).
  { rewrite Eretyped, change_eq, (residue_replaceAll Hres). cbn [state fst snd].
    rewrite app_nil_r, (Set_spread_NoDup_id Hnd). reflexivity. }
  split; [split | repeat split].
  - cbn [fire]. apply press_Enter_noop.
    destruct Hfield as [-> | ->]; [left; reflexivity | right; exact Hin].
  - exact Hcount.
  - rewrite Hretyped. reflexivity.
  - cbn [fire]. rewrite Hretyped. cbn [inputText]. apply press_Enter_noop.
    right. rewrite Hretyped. exact Hin.
  - rewrite Hretyped. reflexivity.
  - rewrite Hretyped. exact Hcount.
Qed.

Lemma C8_witness :
  let w := run [Change (lit "red")] (mount [lit "a"]) in
  let once := fire (KeyDown Enter) w in
  let retyped := fire (Change (lit "red")) once in
  (reachable [lit "a"] w /\ inputText (state w) <> [])
  /\ fire (KeyDown Enter) once = once
  /\ count_occ jsstring_eq_dec (tags (state once)) (lit "red") = 1%nat
  /\ fire (KeyDown Enter) retyped = retyped.
Proof.
  cbv zeta.
  assert (Hreach : reachable [lit "a"] (run [Change (lit "red")] (mount [lit "a"]))).
  { apply reachable_run, reach_mount. }
  assert (Hne : inputText (state (run [Change (lit "red")] (mount [lit "a"]))) <> []).
  { vm_compute. discriminate. }
  split; [split; assumption|].
  destruct (C8_Enter_twice Hreach Hne) as [[H1 H2] (_ & H3 & _ & _)].
  split; [exact H1 | split; [exact H2 | exact H3]].
Defined.

(** ** The Backspace key *)

(** C6.  With the tag list [[a; b; c]], an empty field and no deletion
    pending: the first Backspace leaves the tag list as it is, calls the
    host not at all, sets [deletionIsPending] and flags the last tag, and
    only it, as up for deletion; the second Backspace leaves [[a; b]],
    calls the host with [[a; b]] and resets [deletionIsPending]. *)
Theorem C6_two_phase_delete (a b c : jsstring) (calls : list (list jsstring)) :
  let w := mkWorld (mkState [] [a; b; c] false) calls in
  let first := fire (KeyDown Backspace) w in
  let second := fire (KeyDown Backspace) first in
  (tags (state first) = [a; b; c]
   /\ deletionIsPending (state first) = true
   /\ host first = calls
   /\ (forall i, isUpForDeletion (state first) i = (i =? 2)%nat))
  /\ (tags (state second) = [a; b]
      /\ host second = calls ++ [[a; b]]
      /\ deletionIsPending (state second) = false
      /\ (forall i, isUpForDeletion (state second) i = false)).
Proof.
  cbv zeta. cbn [fire state inputText]. rewrite !press_Backspace.
  cbn [state inputText tags host deletionIsPending jsstring_eqb].
  rewrite slice_init. cbn [removelast].
  repeat split.
  - intros i. unfold isUpForDeletion. cbn [tags deletionIsPending length].
    rewrite andb_true_r. destruct (Nat.eqb_spec i 2) as [-> | Hi]; [reflexivity|].
    apply Z.eqb_neq. lia.
  - intros i. unfold isUpForDeletion. cbn [deletionIsPending]. apply andb_false_r.
Qed.

(** C10.  With an empty tag list, an empty field and a deletion pending,
    Backspace is harmless: the tag list stays empty, the host is called
    with the empty list and [deletionIsPending] is reset.  The world is one
    the component reaches, by a first Backspace after mounting with no
    tag. *)
Theorem C10_second_Backspace_on_empty_list (calls : list (list jsstring)) :
  fire (KeyDown Backspace) (mkWorld (mkState [] [] true) calls)
  = mkWorld (mkState [] [] false) (calls ++ [[]])
  /\ fire (KeyDown Backspace) (mount []) = mkWorld (mkState [] [] true) []
  /\ slice (@nil jsstring) 0 (Z.of_nat (length (@nil jsstring)) - 1) = [].
Proof.
  split; [|split].
  - cbn [fire state inputText]. rewrite press_Backspace.
    cbn [state inputText tags host deletionIsPending jsstring_eqb].
    rewrite slice_init. reflexivity.
  - cbn [fire]. rewrite press_Backspace. reflexivity.
  - rewrite slice_init. reflexivity.
Qed.

(** C5, as stated, fails: after mounting with [[a; b; c]] and a first
    Backspace, the key ArrowLeft, which is not Backspace, leaves
    [deletionIsPending] set, and the next Backspace deletes the last tag. *)
Lemma C5_counterexample :
  let w := fire (KeyDown Backspace) (mount [lit "a"; lit "b"; lit "c"]) in
  let w' := fire (KeyDown (lit "ArrowLeft")) w in
  lit "ArrowLeft" <> Backspace
  /\ deletionIsPending (state w') = true
  /\ tags (state (fire (KeyDown Backspace) w')) = [lit "a"; lit "b"].
Proof.
  cbv zeta. repeat split; [discriminate | vm_compute; reflexivity ..].
Qed.

(** C5 (amended).  In every world the component can reach, a key that is
    not a Backspace on an empty field leaves [deletionIsPending] as it was;
    every change event resets it to false; and when such a key changes the
    tag list, which only Enter adding a tag does, [deletionIsPending] is
    false afterwards. *)
Theorem C5_pending_reset (defaultValue : list jsstring) (w : World)
    (k text : jsstring) :
  reachable defaultValue w ->
  ~ (k = Backspace /\ inputText (state w) = []) ->
  deletionIsPending (state (fire (KeyDown k) w)) = deletionIsPending (state w)
  /\ deletionIsPending (state (fire (Change text) w)) = false
  /\ (tags (state (fire (KeyDown k) w)) <> tags (state w) ->
      deletionIsPending (state (fire (KeyDown k) w)) = false).
Proof.
  intros Hreach Hk. pose proof (reachable_invariant Hreach) as Hinv.
  assert (Hkey : fire (KeyDown k) w = w
                 \/ (inputText (state w) <> []
                     /\ deletionIsPending (state (fire (KeyDown k) w))
                        = deletionIsPending (state w))).
  { cbn [fire]. destruct (key_cases k) as [-> | [-> | [HE HB]]].
    - rewrite press_Enter. destruct (inputText (state w) === []) eqn:E;
        cbn [negb andb]; [left; reflexivity|].
      destruct (negb (includes _ _)); [right | left; reflexivity].
      split; [apply jsstring_eqb_neq, E | reflexivity].
    - left. rewrite press_Backspace.
      destruct (inputText (state w) === []) eqn:E; [|reflexivity].
      exfalso. apply Hk. split; [reflexivity | apply jsstring_eqb_eq, E].
    - left. apply press_other; assumption. }
  split; [|split].
  - destruct Hkey as [-> | [_ H]]; [reflexivity | exact H].
  - cbn [fire]. rewrite change_eq. reflexivity.
  - intros Hadd. destruct Hkey as [E | [Hne H]]; [rewrite E in Hadd; contradiction|].
    rewrite H. destruct (deletionIsPending (state w)) eqn:Ep; [|reflexivity].
    exfalso. apply Hne, (inv_pending Hinv), Ep.
Qed.

Lemma C5_witness :
  let w := run [KeyDown Backspace; Change (lit "d")] (mount [lit "a"]) in
  (reachable [lit "a"] w /\ ~ (Enter = Backspace /\ inputText (state w) = []))
  /\ deletionIsPending (state (fire (KeyDown Enter) w)) = false
  /\ deletionIsPending (state (fire (Change (lit "e,")) w)) = false.
Proof.
  cbv zeta.
  set (w := run [KeyDown Backspace; Change (lit "d")] (mount [lit "a"])).
  assert (Hreach : reachable [lit "a"] w) by apply reachable_run, reach_mount.
  assert (Hk : ~ (Enter = Backspace /\ inputText (state w) = [])).
  { intros [H _]. discriminate H. }
  split; [split; assumption|].
  destruct (C5_pending_reset (lit "e,") Hreach Hk) as (_ & H2 & H3).
  split; [apply H3; vm_compute; discriminate | exact H2].
Defined.

(** ** Removing a tag *)

(** C9.  For a tag [x] that the tag list does not hold, the [onDelete]
    closure for [x] leaves the state as it is, the tag list included; the
    host is called with that unchanged list.  The handler is a total
    function: nothing can fail. *)
Theorem C9_delete_absent (x : jsstring) (w : World) :
  ~ In x (tags (state w)) ->
  tags (state (delete x w)) = tags (state w)
  /\ state (delete x w) = state w
  /\ host (delete x w) = host w ++ [tags (state w)].
Proof.
  intros Hx. rewrite delete_eq. cbn [state tags host].
  assert (E : filter (fun tagB => negb (tagB === x)) (tags (state w)) = tags (state w)).
  { apply filter_all. intros a Ha. apply negb_true_iff, jsstring_eqb_neq.
    intros ->. contradiction. }
  rewrite E. destruct w as [[field ts p] h]. repeat split.
Qed.

Lemma C9_witness :
  let w := mount [lit "a"; lit "b"] in
  ~ In (lit "c") (tags (state w))
  /\ tags (state (delete (lit "c") w)) = [lit "a"; lit "b"]
  /\ host (delete (lit "c") w) = [[lit "a"; lit "b"]].
Proof.
  cbv zeta.
  assert (Hx : ~ In (lit "c") (tags (state (mount [lit "a"; lit "b"])))).
  { simpl. intros [H | [H | []]]; discriminate H. }
  split; [exact Hx|].
  destruct (@C9_delete_absent (lit "c") (mount [lit "a"; lit "b"]) Hx)
    as (H1 & _ & H3).
  split; [exact H1 | exact H3].
Defined.

End Claims.

(** * Further properties of the scan *)

Section ScanMore.

Lemma tokenize_length (s run : jsstring) :
  (length run + length s)%nat =
  (length (snd (tokenize run s))
   + list_sum (map (fun t => S (length t)) (fst (tokenize run s))))%nat.
Proof.
  revert run. induction s as [|c s IH]; intros run; simpl; [lia|].
  destruct (tag_char c).
  - rewrite <- IH, length_app. simpl. lia.
  - specialize (IH []). destruct (tokenize [] s) as [newTags newText].
    simpl in IH. destruct run as [|r run]; simpl; lia.
Qed.

Lemma text_then_delimiter_run (run s : jsstring) :
  tag_text run -> run <> [] ->
  text_then_delimiter (run ++ s) = starts_with_delimiter s || text_then_delimiter s.
Proof.
  intros Hrun. induction Hrun as [|c run Hc Hrun IH]; intros Hne; [congruence|].
  assert (Ec : delimiter c = false) by (rewrite delimiter_tag_char, Hc; reflexivity).
  destruct run as [|c' run].
  - simpl. rewrite Ec. destruct s; reflexivity.
  - specialize (IH ltac:(discriminate)).
    change ((c :: c' :: run) ++ s) with (c :: (c' :: run) ++ s).
    cbn [text_then_delimiter]. cbn [app] in *. rewrite IH.
    inversion Hrun as [|? ? Hc' _]; subst.
    rewrite (delimiter_tag_char c'), Hc'. simpl. rewrite andb_false_r. reflexivity.
Qed.

Lemma text_then_delimiter_cons_delimiter (d : N) (s : jsstring) :
  delimiter d = true -> text_then_delimiter (d :: s) = text_then_delimiter s.
Proof.
  intros Hd. destruct s as [|c s]; [reflexivity|].
  cbn [text_then_delimiter]. rewrite Hd. reflexivity.
Qed.

Lemma tokenize_nothing (s run : jsstring) :
  tag_text run ->
  fst (tokenize run s) = [] <-> text_then_delimiter (run ++ s) = false.
Proof.
  revert run. induction s as [|c s IH]; intros run Hrun.
  - simpl. rewrite app_nil_r, (tag_text_no_text_then_delimiter Hrun). tauto.
  - cbn [tokenize]. destruct (tag_char c) eqn:Ec.
    + rewrite IH, <- app_assoc; [reflexivity|].
      apply Forall_app. split; [assumption | repeat constructor; assumption].
    + assert (Hd : delimiter c = true) by (rewrite delimiter_tag_char, Ec; reflexivity).
      specialize (IH [] (Forall_nil _)). cbn [app] in IH.
      destruct (tokenize [] s) as [newTags newText]. cbn [fst] in IH.
      destruct run as [|r run].
      * cbn [fst app]. rewrite text_then_delimiter_cons_delimiter by exact Hd.
        exact IH.
      * cbn [fst]. rewrite text_then_delimiter_run by (assumption || discriminate).
        cbn [starts_with_delimiter]. rewrite Hd. simpl.
        split; discriminate.
Qed.

Lemma tokenize_nothing_keeps (s run : jsstring) :
  fst (tokenize run s) = [] -> snd (tokenize run s) = run ++ s.
Proof.
  revert run. induction s as [|c s IH]; intros run; simpl.
  - rewrite app_nil_r. reflexivity.
  - destruct (tag_char c).
    + intros H. rewrite (IH _ H), <- app_assoc. reflexivity.
    + specialize (IH []). destruct (tokenize [] s) as [newTags newText].
      destruct run as [|r run]; simpl in *; [|discriminate].
      intros H. rewrite (IH H). reflexivity.
Qed.

(** X1.  The global replace with its backtracking expression does what a
    single pass from left to right does, which closes a tag at the first
    delimiter after tag text and keeps every other code unit. *)
Theorem X1_replaceAll_is_one_pass (text : jsstring) :
  replaceAll text = tokenize [] text.
Proof. apply replaceAll_tokenize. Qed.

(** X2.  After a text change, every tag of the list was in the list before
    or is a captured tag: not empty, free of white space, commas and
    semicolons, and so equal to its trimmed form. *)
Theorem X2_change_adds_clean_tags (text : jsstring) (w : World) :
  Forall (fun x => In x (tags (state w)) \/ (committed x /\ trim x = x))
    (tags (state (change text w))).
Proof.
  rewrite change_eq. cbn [state tags]. apply Forall_forall. intros x Hx.
  apply (proj1 (Set_spread_In _ _)), in_app_or in Hx.
  destruct Hx as [Hx | Hx]; [left; exact Hx | right].
  pose proof (replaceAll_committed text) as H. rewrite Forall_forall in H.
  split; [apply H, Hx | apply committed_trim, H, Hx].
Qed.

(** X3.  The scan loses nothing but one delimiter for each captured tag:
    the length of the text is the length of what stays in the field plus,
    for each captured tag, its length and one. *)
Theorem X3_replaceAll_length (text : jsstring) :
  length text =
  (length (snd (replaceAll text))
   + list_sum (map (fun t => S (length t)) (fst (replaceAll text))))%nat.
Proof.
  rewrite replaceAll_tokenize. apply (tokenize_length text []).
Qed.

(** X4.  A text change captures no tag exactly when the text has no tag
    character directly followed by a delimiter, and then the field takes
    the text as it is. *)
Theorem X4_change_captures_nothing (text : jsstring) :
  (fst (replaceAll text) = [] <-> text_then_delimiter text = false)
  /\ (text_then_delimiter text = false -> replaceAll text = ([], text)).
Proof.
  rewrite replaceAll_tokenize.
  pose proof (@tokenize_nothing text [] (Forall_nil _)) as H. cbn [app] in H.
  split; [exact H|]. intros Hno. apply H in Hno.
  pose proof (tokenize_nothing_keeps text [] Hno) as Hkeep.
  destruct (tokenize [] text) as [newTags newText]. simpl in *. congruence.
Qed.

Lemma X4_witness :
  text_then_delimiter (lit ", be") = false
  /\ replaceAll (lit ", be") = ([], lit ", be").
Proof.
  assert (H : text_then_delimiter (lit ", be") = false) by (vm_compute; reflexivity).
  split; [exact H | exact (proj2 (X4_change_captures_nothing (lit ", be")) H)].
Defined.

(** X5.  A change event that carries what the field already holds after a
    change leaves the state as it is: what stays in the field holds
    nothing to capture and the tag list has no duplicate left. *)
Theorem X5_change_again (text : jsstring) (w : World) :
  let w' := change text w in
  state (change (inputText (state w')) w') = state w'.
Proof.
  intros w'.
  assert (E : state w' =
              mkState (snd (replaceAll text))
                (Set_spread (tags (state w) ++ fst (replaceAll text))) false).
  { subst w'. rewrite change_eq. reflexivity. }
  clearbody w'. rewrite change_eq, E. cbn [state inputText tags].
  rewrite (residue_replaceAll (replaceAll_residue text)). cbn [fst snd].
  rewrite app_nil_r, (Set_spread_NoDup_id (Set_spread_NoDup _)). reflexivity.
Qed.

End ScanMore.

(** * Further properties of the handlers *)

Section HandlersMore.

Lemma NoDup_removelast {A : Type} (l : list A) : NoDup l -> NoDup (removelast l).
Proof.
  intros H. rewrite removelast_firstn_len.
  rewrite <- (firstn_skipn (Nat.pred (length l)) l) in H.
  apply NoDup_app_remove_r in H. exact H.
Qed.

(** An event either leaves the tag list alone and makes no call, or calls the
    host with the tag list it leaves. *)
Lemma fire_host (ev : Event) (w : World) :
  (host (fire ev w) = host w /\ tags (state (fire ev w)) = tags (state w))
  \/ host (fire ev w) = host w ++ [tags (state (fire ev w))].
Proof.
  destruct ev as [text | k | i]; cbn [fire].
  - right. rewrite change_eq. reflexivity.
  - destruct (key_cases k) as [-> | [-> | [HE HB]]].
    + rewrite press_Enter. destruct (_ && _); [right | left; split]; reflexivity.
    + rewrite press_Backspace.
      destruct (_ === _); [destruct (deletionIsPending _); [right | left; split] | left; split];
        reflexivity.
    + rewrite press_other by assumption. left. split; reflexivity.
  - destruct (nth_error _ i); [right; rewrite delete_eq | left; split]; reflexivity.
Qed.

(** X6.  The host always knows the tag list: in every world the component
    can reach, the tag list is the value of the last call of
    [onValueChange], or the default value when no call was made. *)
Theorem X6_host_has_last_tags (defaultValue : list jsstring) (w : World) :
  reachable defaultValue w -> tags (state w) = last (host w) defaultValue.
Proof.
  induction 1 as [|w ev _ IH]; [reflexivity|].
  destruct (fire_host ev w) as [[Eh Et] | Eh]; rewrite Eh.
  - rewrite Et. exact IH.
  - rewrite last_last. reflexivity.
Qed.

Lemma X6_witness :
  let w := run [Change (lit "a,b,"); KeyDown Backspace; KeyDown Backspace]
               (mount [lit "z"]) in
  reachable [lit "z"] w /\ tags (state w) = last (host w) [lit "z"].
Proof.
  cbv zeta.
  assert (H : reachable [lit "z"]
                (run [Change (lit "a,b,"); KeyDown Backspace; KeyDown Backspace]
                   (mount [lit "z"]))) by apply reachable_run, reach_mount.
  split; [exact H | exact (X6_host_has_last_tags H)].
Defined.

(** X7.  Neither a text change nor Enter ever removes a tag: every tag of
    the list is still in the list afterwards. *)
Theorem X7_change_and_Enter_keep_tags (text : jsstring) (w : World) :
  incl (tags (state w)) (tags (state (change text w)))
  /\ incl (tags (state w)) (tags (state (press Enter text w))).
Proof.
  split; intros x Hx.
  - rewrite change_eq. cbn [state tags]. apply Set_spread_In, in_or_app. left. exact Hx.
  - rewrite press_Enter. destruct (_ && _); [|exact Hx].
    cbn [state tags]. apply Set_spread_In, in_or_app. left. exact Hx.
Qed.

Lemma count_occ_filter_neq (tag x : jsstring) (l : list jsstring) :
  x <> tag ->
  count_occ jsstring_eq_dec (filter (fun tagB => negb (tagB === tag)) l) x
  = count_occ jsstring_eq_dec l x.
Proof.
  intros Hx. induction l as [|y l IH]; [reflexivity|].
  cbn [filter]. destruct (y === tag) eqn:E; cbn [negb].
  - apply jsstring_eqb_eq in E. subst y.
    rewrite count_occ_cons_neq by congruence. exact IH.
  - cbn [count_occ]. destruct (jsstring_eq_dec y x); rewrite IH; reflexivity.
Qed.

(** X8.  The delete button of a tag removes every copy of that tag and
    nothing else: the tag is no longer in the list, every other value
    occurs as often as before, and a second removal of the same tag changes
    no state. *)
Theorem X8_delete_removes_all_copies (tag : jsstring) (w : World) :
  ~ In tag (tags (state (delete tag w)))
  /\ (forall x, x <> tag ->
        count_occ jsstring_eq_dec (tags (state (delete tag w))) x
        = count_occ jsstring_eq_dec (tags (state w)) x)
  /\ state (delete tag (delete tag w)) = state (delete tag w).
Proof.
  rewrite !delete_eq. cbn [state tags inputText deletionIsPending].
  split; [|split].
  - intros H. apply filter_In in H. destruct H as [_ H].
    rewrite jsstring_eqb_refl in H. discriminate H.
  - intros x Hx. apply count_occ_filter_neq, Hx.
  - f_equal. rewrite filter_filter. apply filter_ext. intros a. apply andb_diag.
Qed.

Lemma X8_witness :
  let w := mount [lit "a"; lit "b"; lit "a"] in
  lit "b" <> lit "a"
  /\ tags (state (delete (lit "a") w)) = [lit "b"]
  /\ count_occ jsstring_eq_dec (tags (state (delete (lit "a") w))) (lit "b") = 1%nat.
Proof.
  cbv zeta.
  assert (Hne : lit "b" <> lit "a") by discriminate.
  split; [exact Hne | split; [reflexivity|]].
  rewrite (proj1 (proj2 (X8_delete_removes_all_copies (lit "a")
                           (mount [lit "a"; lit "b"; lit "a"]))) (lit "b") Hne).
  reflexivity.
Defined.

(** X9.  A text change leaves a tag list without duplicate, whatever the
    list was; and no event brings a duplicate into a list that has none. *)
Theorem X9_no_duplicate (text : jsstring) (ev : Event) (w : World) :
  NoDup (tags (state (change text w)))
  /\ (NoDup (tags (state w)) -> NoDup (tags (state (fire ev w)))).
Proof.
  split.
  - rewrite change_eq. apply Set_spread_NoDup.
  - intros H. destruct ev as [text' | k | i]; cbn [fire].
    + rewrite change_eq. apply Set_spread_NoDup.
    + destruct (key_cases k) as [-> | [-> | [HE HB]]].
      * rewrite press_Enter. destruct (_ && _); [apply Set_spread_NoDup | exact H].
      * rewrite press_Backspace.
        destruct (_ === _); [destruct (deletionIsPending _)|]; cbn [state tags];
          try exact H.
        rewrite slice_init. apply NoDup_removelast, H.
      * rewrite press_other by assumption. exact H.
    + destruct (nth_error _ i); [|exact H].
      rewrite delete_eq. apply NoDup_filter, H.
Qed.

Lemma X9_witness :
  let w := mount [lit "a"; lit "b"] in
  NoDup (tags (state w)) /\ NoDup (tags (state (fire (DeleteClick 0) w))).
Proof.
  cbv zeta.
  assert (H : NoDup (tags (state (mount [lit "a"; lit "b"])))).
  { repeat constructor; simpl; intuition discriminate. }
  split; [exact H|].
  exact (proj2 (X9_no_duplicate [] (DeleteClick 0) (mount [lit "a"; lit "b"])) H).
Defined.

(** X10.  With an empty field and no deletion pending, two Backspace in a
    row remove the last tag, whatever the tag list, and make one call of
    the host, with the shortened list; the field stays empty and no
    deletion is pending afterwards.  On an empty tag list the list stays
    empty. *)
Theorem X10_two_Backspace_drop_last (w : World) :
  inputText (state w) = [] ->
  deletionIsPending (state w) = false ->
  let w2 := fire (KeyDown Backspace) (fire (KeyDown Backspace) w) in
  state w2 = mkState [] (removelast (tags (state w))) false
  /\ host w2 = host w ++ [removelast (tags (state w))].
Proof.
  destruct w as [[field ts p] h]. cbn [state inputText deletionIsPending].
  intros -> ->. cbv zeta. cbn [fire state inputText]. rewrite !press_Backspace.
  cbn [state inputText tags host deletionIsPending jsstring_eqb].
  rewrite slice_init. split; reflexivity.
Qed.

Lemma X10_witness :
  let w := mount [lit "a"; lit "b"] in
  (inputText (state w) = [] /\ deletionIsPending (state w) = false)
  /\ tags (state (fire (KeyDown Backspace) (fire (KeyDown Backspace) w))) = [lit "a"].
Proof.
  cbv zeta. split; [split; reflexivity|].
  rewrite (proj1 (@X10_two_Backspace_drop_last (mount [lit "a"; lit "b"])
                    eq_refl eq_refl)).
  reflexivity.
Defined.


(** X12.  A key that is neither Enter nor a Backspace on an empty field is
    not acted upon: neither the state nor the host sees it. *)
Theorem X12_other_keys_do_nothing (k text : jsstring) (w : World) :
  k <> Enter ->
  (k = Backspace -> text <> []) ->
  press k text w = w.
Proof.
  intros HE HB. destruct (jsstring_eq_dec k Backspace) as [-> | Hk].
  - rewrite press_Backspace. specialize (HB eq_refl).
    apply jsstring_eqb_neq in HB. rewrite HB. reflexivity.
  - apply press_other; assumption.
Qed.

Lemma X12_witness :
  let w := mkWorld (mkState (lit "ab") [lit "x"] false) [] in
  (Backspace <> Enter /\ (Backspace = Backspace -> lit "ab" <> []))
  /\ press Backspace (lit "ab") w = w.
Proof.
  cbv zeta.
  assert (HE : Backspace <> Enter) by discriminate.
  assert (HB : Backspace = Backspace -> lit "ab" <> []) by (intros _; discriminate).
  split; [split; assumption|].
  exact (X12_other_keys_do_nothing (mkWorld (mkState (lit "ab") [lit "x"] false) []) HE HB).
Defined.

(** X13.  When the tag list has no duplicate and the trimmed text of the
    field is new, Enter puts it at the end of the list, keeps the other
    tags in place, empties the field and calls the host with the new
    list. *)
Theorem X13_Enter_appends (text : jsstring) (w : World) :
  NoDup (tags (state w)) ->
  text <> [] ->
  ~ In (trim text) (tags (state w)) ->
  let w' := press Enter text w in
  tags (state w') = tags (state w) ++ [trim text]
  /\ inputText (state w') = []
  /\ host w' = host w ++ [tags (state w) ++ [trim text]].
Proof.
  intros Hnd Hne Hnew. cbv zeta. rewrite press_Enter.
  apply jsstring_eqb_neq in Hne. apply includes_not_In in Hnew.
  rewrite Hne, Hnew. cbn [negb andb state tags inputText host].
  assert (E : Set_spread (tags (state w) ++ [trim text]) = tags (state w) ++ [trim text]).
  { apply Set_spread_NoDup_id. apply NoDup_app; [exact Hnd | repeat constructor; auto |].
    intros a Ha [<- | []]. apply includes_not_In in Hnew. contradiction. }
  rewrite E. repeat split.
Qed.

Lemma X13_witness :
  let w := mount [lit "a"] in
  (NoDup (tags (state w)) /\ lit " b" <> [] /\ ~ In (trim (lit " b")) (tags (state w)))
  /\ tags (state (press Enter (lit " b") w)) = [lit "a"; lit "b"].
Proof.
  cbv zeta.
  assert (H1 : NoDup (tags (state (mount [lit "a"])))) by (repeat constructor; simpl; tauto).
  assert (H2 : lit " b" <> []) by discriminate.
  assert (H3 : ~ In (trim (lit " b")) (tags (state (mount [lit "a"])))).
  { simpl. intros [H | []]. discriminate H. }
  split; [repeat split; assumption|].
  rewrite (proj1 (@X13_Enter_appends (lit " b") (mount [lit "a"]) H1 H2 H3)).
  reflexivity.
Defined.

End HandlersMore.

(** * Further properties of the reachable worlds *)

Section ReachableMore.

(** X14.  A deletion is pending only while the field is empty: in every
    world the component can reach, [deletionIsPending] set means an empty
    [inputText]. *)
Theorem X14_pending_means_empty_field (defaultValue : list jsstring) (w : World) :
  reachable defaultValue w ->
  deletionIsPending (state w) = true ->
  inputText (state w) = [].
Proof. intros H. apply (inv_pending (reachable_invariant H)). Qed.

Lemma X14_witness :
  let w := run [Change (lit "a,"); KeyDown Backspace] (mount []) in
  (reachable [] w /\ deletionIsPending (state w) = true)
  /\ inputText (state w) = [].
Proof.
  cbv zeta.
  assert (H : reachable [] (run [Change (lit "a,"); KeyDown Backspace] (mount [])))
    by apply reachable_run, reach_mount.
  assert (Hp : deletionIsPending
                 (state (run [Change (lit "a,"); KeyDown Backspace] (mount []))) = true)
    by reflexivity.
  split; [split; assumption | exact (X14_pending_means_empty_field H Hp)].
Defined.

(** X15.  The field never holds a tag that a delimiter has closed: in every
    world the component can reach, [inputText] has no tag character
    directly followed by a delimiter, and a scan of it captures nothing. *)
Theorem X15_field_holds_no_closed_tag (defaultValue : list jsstring) (w : World) :
  reachable defaultValue w ->
  text_then_delimiter (inputText (state w)) = false
  /\ replaceAll (inputText (state w)) = ([], inputText (state w)).
Proof.
  intros H. pose proof (inv_residue (reachable_invariant H)) as Hr.
  split; [apply residue_no_text_then_delimiter | apply residue_replaceAll]; exact Hr.
Qed.

Lemma X15_witness :
  let w := run [Change (lit "a, ;b"); KeyDown (lit "x")] (mount []) in
  reachable [] w
  /\ inputText (state w) = lit " ;b"
  /\ text_then_delimiter (inputText (state w)) = false.
Proof.
  cbv zeta.
  assert (H : reachable [] (run [Change (lit "a, ;b"); KeyDown (lit "x")] (mount [])))
    by apply reachable_run, reach_mount.
  split; [exact H | split; [vm_compute; reflexivity|]].
  exact (proj1 (X15_field_holds_no_closed_tag H)).
Defined.

(** X16.  Whenever the field holds text, the tag list has no duplicate,
    even when the default value had some: text gets into the field through
    a change event only, and that removes the duplicates. *)
Theorem X16_text_in_field_means_no_duplicate (defaultValue : list jsstring)
    (w : World) :
  reachable defaultValue w ->
  inputText (state w) <> [] ->
  NoDup (tags (state w)).
Proof. intros H. apply (inv_NoDup (reachable_invariant H)). Qed.

Lemma X16_witness :
  let w := run [Change (lit "b")] (mount [lit "a"; lit "a"]) in
  (reachable [lit "a"; lit "a"] w /\ inputText (state w) <> [])
  /\ NoDup (tags (state w)).
Proof.
  cbv zeta.
  assert (H : reachable [lit "a"; lit "a"]
                (run [Change (lit "b")] (mount [lit "a"; lit "a"])))
    by apply reachable_run, reach_mount.
  assert (Hne : inputText (state (run [Change (lit "b")] (mount [lit "a"; lit "a"]))) <> [])
    by (vm_compute; discriminate).
  split; [split; assumption | exact (X16_text_in_field_means_no_duplicate H Hne)].
Defined.

End ReachableMore.

(** * Entering text piece by piece *)

Section Pieces.

(** A scan can be resumed: the leftover of a first piece, put in front of
    the second piece, stands for the first piece. *)
Lemma tokenize_app (s1 s2 run : jsstring) :
  tag_text run ->
  tokenize run (s1 ++ s2) =
  (fst (tokenize run s1) ++ fst (tokenize [] (snd (tokenize run s1) ++ s2)),
   snd (tokenize [] (snd (tokenize run s1) ++ s2))).
Proof.
  revert run. induction s1 as [|c s1 IH]; intros run Hrun.
  - cbn [app tokenize fst snd].
    rewrite (tokenize_run [] s2 Hrun). cbn [app].
    destruct (tokenize run s2); reflexivity.
  - cbn [app tokenize]. destruct (tag_char c) eqn:Ec.
    + apply IH. apply Forall_app. split; [assumption | repeat constructor; assumption].
    + rewrite (IH [] (Forall_nil _)).
      destruct (tokenize [] s1) as [T1 b1]. cbn [fst snd].
      destruct run as [|r run]; cbn [fst snd app tokenize].
      * rewrite Ec. destruct (tokenize [] (b1 ++ s2)) as [T2 b2]. reflexivity.
      * destruct (tokenize [] (b1 ++ s2)) as [T2 b2]. reflexivity.
Qed.

Lemma replaceAll_app (s1 s2 : jsstring) :
  replaceAll (s1 ++ s2) =
  (fst (replaceAll s1) ++ fst (replaceAll (snd (replaceAll s1) ++ s2)),
   snd (replaceAll (snd (replaceAll s1) ++ s2))).
Proof.
  rewrite !replaceAll_tokenize. apply tokenize_app. constructor.
Qed.

Lemma change_state_ext (text : jsstring) (w1 w2 : World) :
  state w1 = state w2 -> state (change text w1) = state (change text w2).
Proof. intros E. rewrite !change_eq. cbn [state]. rewrite E. reflexivity. Qed.

Lemma change_pieces (s1 s2 : jsstring) (w : World) :
  state (change (inputText (state (change s1 w)) ++ s2) (change s1 w))
  = state (change (s1 ++ s2) w).
Proof.
  rewrite (change_eq (s1 ++ s2)), replaceAll_app. cbn [state fst snd].
  rewrite (change_eq (inputText _ ++ s2)).
  assert (E : state (change s1 w) =
              mkState (snd (replaceAll s1))
                (Set_spread (tags (state w) ++ fst (replaceAll s1))) false).
  { rewrite change_eq. reflexivity. }
  rewrite E. cbn [state inputText tags].
  rewrite Set_spread_spread_app, app_assoc. reflexivity.
Qed.

(** X17.  Text entered in two pieces gives the state that the whole text
    gives at once: after a change to [s1], a change to what the field then
    holds followed by [s2] leaves the tag list, the field and the pending
    flag that a single change to [s1 ++ s2] leaves. *)
Theorem X17_change_in_two_pieces (s1 s2 : jsstring) (w : World) :
  let w1 := change s1 w in
  state (change (inputText (state w1) ++ s2) w1) = state (change (s1 ++ s2) w).
Proof. apply change_pieces. Qed.

(** X18.  Typing a text into the empty field one code unit at a time
    leaves the state that pasting the text at once leaves. *)
Theorem X18_typing_is_pasting (s : jsstring) (w : World) :
  inputText (state w) = [] ->
  s <> [] ->
  state (typeText s w) = state (change s w).
Proof.
  intros Hfield. induction s as [|c s IH] using rev_ind; [congruence|]. intros _.
  unfold typeText in *. rewrite fold_left_app. cbn [fold_left].
  destruct s as [|c0 s].
  - cbn [fold_left app]. unfold typeChar. cbn [fire]. rewrite Hfield. reflexivity.
  - specialize (IH ltac:(discriminate)).
    set (w1 := fold_left (fun w c => typeChar c w) (c0 :: s) w) in *.
    unfold typeChar at 1. cbn [fire]. rewrite IH.
    rewrite (change_state_ext _ _ _ IH). apply change_pieces.
Qed.

Lemma X18_witness :
  let w := mount [lit "x"] in
  (inputText (state w) = [] /\ lit "ab, c;" <> [])
  /\ state (typeText (lit "ab, c;") w) = state (change (lit "ab, c;") w)
  /\ tags (state (typeText (lit "ab, c;") w)) = [lit "x"; lit "ab"; lit "c"].
Proof.
  cbv zeta.
  assert (H1 : inputText (state (mount [lit "x"])) = []) by reflexivity.
  assert (H2 : lit "ab, c;" <> []) by discriminate.
  split; [split; assumption|].
  split; [exact (X18_typing_is_pasting (mount [lit "x"]) H1 H2)|].
  rewrite (X18_typing_is_pasting (mount [lit "x"]) H1 H2). vm_compute. reflexivity.
Defined.

(** X19.  A run of change events that is not empty leaves the tag list that
    one [Set] of the tags before and of all the captured tags, in order,
    would give, whether or not the list had duplicates before. *)
Theorem X19_changes_compose (texts : list jsstring) (w : World) :
  texts <> [] ->
  tags (state (changes texts w)) = Set_spread (tags (state w) ++ captured texts).
Proof.
  destruct texts as [|text texts]; [congruence|]. intros _.
  change (changes (text :: texts) w) with (changes texts (change text w)).
  rewrite tags_changes; rewrite change_eq; cbn [state tags]; [|apply Set_spread_NoDup].
  rewrite Set_spread_spread_app. unfold captured. cbn [map concat].
  rewrite app_assoc. reflexivity.
Qed.

Lemma X19_witness :
  let texts := [lit "b,a,"; lit "c "] in
  let w := mount [lit "a"; lit "a"] in
  texts <> []
  /\ tags (state (changes texts w)) = [lit "a"; lit "b"; lit "c"].
Proof.
  cbv zeta.
  assert (H : [lit "b,a,"; lit "c "] <> []) by discriminate.
  split; [exact H|].
  rewrite (@X19_changes_compose [lit "b,a,"; lit "c "] (mount [lit "a"; lit "a"]) H).
  vm_compute. reflexivity.
Defined.

End Pieces.

(** * The hidden input, trimmed tags and the delete button *)

Section Serialized.

Lemma tokenize_join (l : list jsstring) :
  Forall committed l -> tokenize [] (join l) = (removelast l, last l []).
Proof.
  induction 1 as [|x l [Hx Htx] Hl IH]; [reflexivity|].
  destruct l as [|y l].
  - cbn [join removelast last]. apply tokenize_tag_text, Htx.
  - change (join (x :: y :: l)) with (x ++ comma :: join (y :: l)).
    rewrite (tokenize_run [] _ Htx). cbn [app tokenize].
    change (tag_char comma) with false. cbv iota. rewrite IH.
    destruct x as [|c x]; [congruence | reflexivity].
Qed.

Lemma last_In {A : Type} (l : list A) (d : A) : l <> [] -> In (last l d) l.
Proof.
  intros H. rewrite (app_removelast_last d H) at 2.
  apply in_or_app. right. left. reflexivity.
Qed.

(** X20.  The value of the hidden input reads back as the tag list: for a
    list of captured tags without duplicate, a change to [tags.join(",")]
    in a fresh component captures all the tags but the last, which stays in
    the field, and Enter then completes the list. *)
Theorem X20_join_reads_back (l : list jsstring) :
  Forall committed l ->
  NoDup l ->
  let w := fire (Change (join l)) (mount []) in
  (tags (state w) = removelast l /\ inputText (state w) = last l [])
  /\ tags (state (fire (KeyDown Enter) w)) = l.
Proof.
  intros Hc Hnd w.
  assert (E : state w = mkState (last l []) (removelast l) false).
  { subst w. cbn [fire]. rewrite change_eq, replaceAll_tokenize, (tokenize_join Hc).
    cbn [mount state tags fst snd app].
    rewrite (Set_spread_NoDup_id (NoDup_removelast Hnd)). reflexivity. }
  clearbody w. split; [rewrite E; split; reflexivity|].
  cbn [fire]. rewrite press_Enter, E. cbn [inputText tags].
  destruct l as [|x l]; [cbn; rewrite E; reflexivity|].
  assert (Hne : x :: l <> []) by discriminate.
  pose proof (app_removelast_last [] Hne) as Hsplit.
  set (z := last (x :: l) []) in *. set (front := removelast (x :: l)) in *.
  assert (Hz : committed z).
  { rewrite Forall_forall in Hc. apply Hc. apply last_In, Hne. }
  rewrite (committed_trim Hz).
  assert (Hfresh : includes front z = false).
  { apply includes_not_In. rewrite Hsplit in Hnd.
    intros Hin. apply (NoDup_remove_2 _ _ _ Hnd). rewrite app_nil_r. exact Hin. }
  destruct Hz as [Hzne _]. apply jsstring_eqb_neq in Hzne.
  rewrite Hzne, Hfresh. cbn [negb andb state tags].
  assert (Hs : front ++ [z] = x :: l) by (symmetry; exact Hsplit).
  rewrite Hs. apply Set_spread_NoDup_id, Hnd.
Qed.

Lemma X20_witness :
  let l := [lit "x"; lit "y"; lit "z"] in
  (Forall committed l /\ NoDup l)
  /\ join l = lit "x,y,z"
  /\ tags (state (fire (KeyDown Enter) (fire (Change (join l)) (mount [])))) = l.
Proof.
  cbv zeta.
  assert (Hc : Forall committed [lit "x"; lit "y"; lit "z"]).
  { repeat constructor; try discriminate; vm_compute; reflexivity. }
  assert (Hnd : NoDup [lit "x"; lit "y"; lit "z"]).
  { repeat constructor; simpl; intuition discriminate. }
  split; [split; assumption | split; [reflexivity|]].
  exact (proj2 (X20_join_reads_back Hc Hnd)).
Defined.

Lemma trimStart_head (s : jsstring) :
  match trimStart s with
  | c :: _ => is_space c = false
  | [] => True
  end.
Proof.
  induction s as [|c s IH]; simpl; [exact I|].
  destruct (is_space c) eqn:E; [exact IH | exact E].
Qed.

Lemma trimStart_id (s : jsstring) :
  match s with
  | c :: _ => is_space c = false
  | [] => True
  end -> trimStart s = s.
Proof. destruct s as [|c s]; simpl; [reflexivity | intros ->; reflexivity]. Qed.

Lemma trimStart_suffix (s : jsstring) : exists pre, s = pre ++ trimStart s.
Proof.
  induction s as [|c s [pre IH]]; simpl; [exists []; reflexivity|].
  destruct (is_space c).
  - exists (c :: pre). simpl. rewrite <- IH. reflexivity.
  - exists []. reflexivity.
Qed.

Lemma trim_idempotent (s : jsstring) : trim (trim s) = trim s.
Proof.
  unfold trim, trimEnd.
  set (u := trimStart s). set (v := trimStart (rev u)).
  assert (Hv : trimStart v = v) by apply trimStart_id, trimStart_head.
  assert (Hrv : trimStart (rev v) = rev v).
  { apply trimStart_id. destruct (trimStart_suffix (rev u)) as [pre Hpre].
    fold v in Hpre. apply (f_equal (@rev N)) in Hpre.
    rewrite rev_involutive, rev_app_distr in Hpre.
    pose proof (trimStart_head s) as Hu. fold u in Hu.
    destruct (rev v) as [|c r]; [exact I|]. rewrite Hpre in Hu. exact Hu. }
  rewrite Hrv, rev_involutive, Hv. reflexivity.
Qed.

(** X21.  The tags stay trimmed: when no default tag has white space at
    either end, no tag of any world the component can reach has. *)
Theorem X21_tags_stay_trimmed (defaultValue : list jsstring) (w : World) :
  all_trimmed defaultValue ->
  reachable defaultValue w ->
  all_trimmed (tags (state w)).
Proof.
  intros Hdv. unfold all_trimmed in *.
  induction 1 as [|w ev _ IH]; [exact Hdv|].
  rewrite Forall_forall in IH. apply Forall_forall.
  destruct ev as [text | k | i]; cbn [fire].
  - pose proof (X := replaceAll_committed text). rewrite Forall_forall in X.
    rewrite change_eq. cbn [state tags]. intros x Hx.
    apply (proj1 (Set_spread_In _ _)), in_app_or in Hx.
    destruct Hx as [Hx | Hx]; [apply IH, Hx | apply committed_trim, X, Hx].
  - destruct (key_cases k) as [-> | [-> | [HE HB]]].
    + rewrite press_Enter. destruct (_ && _); [|exact IH].
      cbn [state tags]. intros x Hx.
      apply (proj1 (Set_spread_In _ _)), in_app_or in Hx.
      destruct Hx as [Hx | [<- | []]]; [apply IH, Hx | apply trim_idempotent].
    + rewrite press_Backspace.
      destruct (_ === _); [destruct (deletionIsPending _)|]; cbn [state tags];
        try exact IH.
      rewrite slice_init, removelast_firstn_len. intros x Hx.
      apply IH. rewrite <- (firstn_skipn (Nat.pred (length (tags (state w))))).
      apply in_or_app. left. exact Hx.
    + rewrite press_other by assumption. exact IH.
  - destruct (nth_error _ i); [|exact IH].
    rewrite delete_eq. cbn [state tags]. intros x Hx.
    apply filter_In in Hx. apply IH, Hx.
Qed.

Lemma X21_witness :
  let w := run [Change (lit " a ,b"); KeyDown Enter] (mount [lit "z"]) in
  (all_trimmed [lit "z"] /\ reachable [lit "z"] w)
  /\ all_trimmed (tags (state w)).
Proof.
  cbv zeta.
  assert (Hdv : all_trimmed [lit "z"]) by (repeat constructor).
  assert (H : reachable [lit "z"]
                (run [Change (lit " a ,b"); KeyDown Enter] (mount [lit "z"])))
    by apply reachable_run, reach_mount.
  split; [split; assumption | exact (X21_tags_stay_trimmed Hdv H)].
Defined.

(** X22.  In a tag list without duplicate, the delete button of the [i]-th
    tag removes that element and no other: the list becomes the tags before
    it followed by the tags after it, and the host is called with it. *)
Theorem X22_DeleteClick_removes_one (i : nat) (tag : jsstring) (w : World) :
  NoDup (tags (state w)) ->
  nth_error (tags (state w)) i = Some tag ->
  let rest := firstn i (tags (state w)) ++ skipn (S i) (tags (state w)) in
  tags (state (fire (DeleteClick i) w)) = rest
  /\ host (fire (DeleteClick i) w) = host w ++ [rest].
Proof.
  intros Hnd Hi rest. cbn [fire]. rewrite Hi, delete_eq. cbn [state tags host].
  assert (E : filter (fun tagB => negb (tagB === tag)) (tags (state w)) = rest).
  { subst rest. pose proof (firstn_skipn_middle _ _ Hi) as Hsplit.
    rewrite <- Hsplit in Hnd. apply NoDup_remove_2 in Hnd.
    rewrite <- Hsplit at 1. rewrite filter_app. cbn [filter].
    rewrite jsstring_eqb_refl. cbn [negb].
    rewrite !filter_all; [reflexivity | |];
      intros a Ha; apply negb_true_iff, jsstring_eqb_neq; intros ->;
      apply Hnd, in_or_app; auto. }
  rewrite E. split; reflexivity.
Qed.

Lemma X22_witness :
  let w := mount [lit "a"; lit "b"; lit "c"] in
  (NoDup (tags (state w)) /\ nth_error (tags (state w)) 1 = Some (lit "b"))
  /\ tags (state (fire (DeleteClick 1) w)) = [lit "a"; lit "c"].
Proof.
  cbv zeta.
  assert (Hnd : NoDup (tags (state (mount [lit "a"; lit "b"; lit "c"])))).
  { repeat constructor; simpl; intuition discriminate. }
  assert (Hi : nth_error (tags (state (mount [lit "a"; lit "b"; lit "c"]))) 1
               = Some (lit "b")) by reflexivity.
  split; [split; assumption|].
  exact (proj1 (X22_DeleteClick_removes_one 1 _ Hnd Hi)).
Defined.

End Serialized.
